(** * creme: bounded-window k-nearest-neighbour regression (KNNRegressor)
    and the CountVectorizer text transformer.

    Shallow embedding of [creme/neighbors/knn_regressor.py] and
    [creme/feature_extraction/vectorize.py].  Numbers are exact rationals
    ([Q]) wrapped in a small IEEE-like type [flt] that keeps the infinities
    and the not-a-number value numpy produces on divisions by zero.  The
    process-wide feature-name registry of [dict2numpy], the sliding window
    and the neighbour query of [BaseNeighbors] are not part of the two
    source files; they are modelled from the specification and marked so. *)

From Stdlib Require Import String Ascii.
From Stdlib Require Import List Bool Arith Lia ZArith QArith Qround Qabs Permutation Sorted Lqa.
Import ListNotations.
Open Scope Q_scope.
Open Scope string_scope.
Open Scope list_scope.
Open Scope Q_scope.

(** ** Python exceptions and results *)

Inductive exn :=
| ValueError (msg : string)
| AttributeError (attr : string)
| KeyError (key : string)
| TypeError
| IndexError
| ZeroDivisionError.

Inductive result (A : Type) :=
| Ok (a : A)
| Err (e : exn).
Arguments Ok {A} a.
Arguments Err {A} e.

Definition bind {A B} (r : result A) (f : A -> result B) : result B :=
  match r with Ok a => f a | Err e => Err e end.

Notation "'let*' x := r 'in' f" := (bind r (fun x => f))
  (at level 200, x name, r at level 100, f at level 200).

(** ** numpy float64 values, with exact finite part *)

Inductive flt :=
| F (q : Q)
| PInf
| NInf
| NaN.

Definition fneg (a : flt) : flt :=
  match a with F q => F (- q) | PInf => NInf | NInf => PInf | NaN => NaN end.

Definition fadd (a b : flt) : flt :=
  match a, b with
  | F x, F y => F (x + y)
  | NaN, _ | _, NaN => NaN
  | PInf, NInf | NInf, PInf => NaN
  | PInf, _ | _, PInf => PInf
  | NInf, _ | _, NInf => NInf
  end.

Definition fsub (a b : flt) : flt :=
  match a, b with
  | F x, F y => F (x - y)
  | _, _ => fadd a (fneg b)
  end.

(** sign of a finite value: [Gt], [Eq] or [Lt] *)
Definition qsign (q : Q) : comparison := Qcompare q 0.

Definition inf_of (c : comparison) : flt :=
  match c with Gt => PInf | Lt => NInf | Eq => NaN end.

Definition flip (c : comparison) : comparison :=
  match c with Gt => Lt | Lt => Gt | Eq => Eq end.

Definition fmul (a b : flt) : flt :=
  match a, b with
  | F x, F y => F (x * y)
  | NaN, _ | _, NaN => NaN
  | F x, PInf | PInf, F x => inf_of (qsign x)
  | F x, NInf | NInf, F x => inf_of (flip (qsign x))
  | PInf, PInf | NInf, NInf => PInf
  | PInf, NInf | NInf, PInf => NInf
  end.

(** division; a zero divisor is taken as +0 (numpy warns, never raises) *)
Definition fdiv (a b : flt) : flt :=
  match a, b with
  | F x, F y => if Qeq_bool y 0 then inf_of (qsign x) else F (x / y)
  | NaN, _ | _, NaN => NaN
  | F _, (PInf | NInf) => F 0
  | (PInf | NInf), (PInf | NInf) => NaN
  | PInf, F y => if Qeq_bool y 0 then PInf else inf_of (qsign y)
  | NInf, F y => if Qeq_bool y 0 then NInf else inf_of (flip (qsign y))
  end.

(** [ndarray.sum()] *)
Definition fsum (l : list flt) : flt := fold_right fadd (F 0) l.

Definition fis_zero (a : flt) : bool :=
  match a with F q => Qeq_bool q 0 | _ => false end.

Definition Qsum (l : list Q) : Q := fold_right Qplus 0 l.

(** ** Feature vector codec ([creme.utils.dict2numpy]) *)

(** A named-feature input: a Python dict from feature name to number. *)
Definition features := list (string * Q).

(** The process-wide ordered set of known feature names. *)
Definition registry := list string.

Fixpoint dict_get (x : features) (k : string) : option Q :=
  match x with
  | [] => None
  | (k', v) :: t => if String.eqb k k' then Some v else dict_get t k
  end.

(** Modelled from the spec: [dict2numpy] (creme/utils), absent from the
    sources.  Every name of [x] not yet known is appended to the end of
    the global ordering; the vector lists, in registration order, the
    value of every registered name, 0 for the names [x] lacks. *)
Definition register (reg : registry) (x : features) : registry :=
  fold_left (fun r kv => if existsb (String.eqb (fst kv)) r then r else app r [fst kv])
    x reg.

Definition dict2numpy (reg : registry) (x : features) : list Q * registry :=
  let reg' := register reg x in
  (map (fun k => match dict_get x k with Some v => v | None => 0 end) reg', reg').

(** ** Sliding window ([BaseNeighbors.data_window]) *)

(** Modelled from the spec: the sliding window store of [BaseNeighbors],
    absent from the sources.  Entries are (feature vector, target) pairs
    in insertion order; [add_one] appends and, past the capacity, evicts
    the single oldest entry. *)
Record window := mk_window {
  window_size : nat;
  entries : list (list Q * Q)
}.

Definition size (w : window) : nat := length (entries w).

Definition add_one (w : window) (v : list Q) (y : Q) : window :=
  let es := app (entries w) [(v, y)] in
  mk_window (window_size w) (if Nat.ltb (window_size w) (length es) then tl es else es).

Definition targets_buffer (w : window) : list Q := map snd (entries w).

(** ** The regressor *)

Inductive aggregation := Mean | Median | WeightedMean.

Definition agg_of_string (s : string) : option aggregation :=
  if String.eqb s "mean" then Some Mean
  else if String.eqb s "median" then Some Median
  else if String.eqb s "weighted_mean" then Some WeightedMean
  else None.

Record KNNRegressor := mk_knn {
  n_neighbors : nat;
  max_window_size : nat;
  leaf_size : nat;
  p : positive;            (* Minkowski order; integer orders >= 1 *)
  aggregation_method : string;
  data_window : option window
}.

(** Class attributes of [KNNRegressor] reachable through [self]. *)
Definition class_attrs : list (string * string) :=
  [("_MEAN", "mean"); ("_MEDIAN", "median"); ("_WEIGHTED_MEAN", "weighted_mean")].

Fixpoint str_assoc (l : list (string * string)) (k : string) : option string :=
  match l with
  | [] => None
  | (k', v) :: t => if String.eqb k k' then Some v else str_assoc t k
  end.

(** [getattr(self, name)] for the string-valued class attributes. *)
Definition getattr_str (name : string) : result string :=
  match str_assoc class_attrs name with
  | Some v => Ok v
  | None => Err (AttributeError name)
  end.

(** Modelled from the spec: [BaseNeighbors.__init__], absent from the
    sources.  It validates the sizes (the order [p] >= 1 is enforced by its
    type here), stores the parameters and creates the empty window. *)
Definition BaseNeighbors_init (n_neighbors max_window_size leaf_size : nat) (p : positive)
  : result (nat * nat * nat * positive * window) :=
  if Nat.eqb n_neighbors 0 then Err (ValueError "n_neighbors")
  else if Nat.eqb max_window_size 0 then Err (ValueError "max_window_size")
  else if Nat.eqb leaf_size 0 then Err (ValueError "leaf_size")
  else Ok (n_neighbors, max_window_size, leaf_size, p, mk_window max_window_size []).

Definition in_valid_set (s : string) : bool :=
  existsb (String.eqb s) ["mean"; "median"; "weighted_mean"].

(** [KNNRegressor.__init__]: on an invalid method the arguments of the
    [ValueError] message are evaluated first, left to right, among them
    the set display [{self._MEAN, self._MEDIAN, self.f_WEIGHTED_MEAN}]. *)
Definition KNNRegressor_init (n_neighbors max_window_size leaf_size : nat) (p : positive)
    (aggregation_method : string) : result KNNRegressor :=
  let* base := BaseNeighbors_init n_neighbors max_window_size leaf_size p in
  let '(n, m, l, pp, w) := base in
  if negb (in_valid_set aggregation_method) then
    let* a := getattr_str "_MEAN" in
    let* b := getattr_str "_MEDIAN" in
    let* c := getattr_str "f_WEIGHTED_MEAN" in
    Err (ValueError (String.append "Invalid aggregation_method: " aggregation_method))
  else Ok (mk_knn n m l pp aggregation_method (Some w)).

(** Engine state together with the global registry. *)
Record state := mk_state {
  model : KNNRegressor;
  reg : registry
}.

Definition set_window (m : KNNRegressor) (w : window) : KNNRegressor :=
  mk_knn (n_neighbors m) (max_window_size m) (leaf_size m) (p m) (aggregation_method m) (Some w).

(** [KNNRegressor.learn_one]; [self.data_window.add_one] on [None] is an
    attribute error. *)
Definition learn_one (s : state) (x : features) (y : Q) : result state :=
  let '(x_arr, reg') := dict2numpy (reg s) x in
  match data_window (model s) with
  | None => Err (AttributeError "add_one")
  | Some w => Ok (mk_state (set_window (model s) (add_one w x_arr y)) reg')
  end.

(** ** Neighbour query ([BaseNeighbors._get_neighbors]) *)

(** Coordinate-wise differences, the shorter vector padded with zeros
    (a feature registered after a vector was built reads as 0 in it). *)
Fixpoint pdiff (a b : list Q) : list Q :=
  match a with
  | [] => map Qopp b
  | x :: a' =>
      match b with
      | [] => a
      | y :: b' => (x - y) :: pdiff a' b'
      end
  end.

(** [sum_i |a_i - b_i|^p], the p-th power of the Minkowski distance. *)
Definition mpow (p : positive) (a b : list Q) : Q :=
  Qsum (map (fun d => Qpower (Qabs d) (Zpos p)) (pdiff a b)).

(** Integer p-th root by bisection, with [lo^p <= n < hi^p]. *)
Fixpoint zroot_aux (fuel : nat) (p : positive) (n lo hi : Z) : Z :=
  match fuel with
  | O => lo
  | S f =>
      if (hi - lo <=? 1)%Z then lo
      else
        let m := ((lo + hi) / 2)%Z in
        if (m ^ Zpos p <=? n)%Z then zroot_aux f p n m hi else zroot_aux f p n lo m
  end.

Definition zroot (p : positive) (n : Z) : Z :=
  zroot_aux (Z.to_nat (Z.log2 n + 2)) p n 0 (n + 1).

(** p-th root of a rational: exact on p-th powers of rationals, rounded
    down on numerator and denominator otherwise. *)
Definition qroot (p : positive) (q : Q) : Q :=
  let r := Qred q in
  Qmake (zroot p (Qnum r)) (Z.to_pos (zroot p (Zpos (Qden r)))).

(** Stable insertion sort on a rational key: equal keys keep their order. *)
Fixpoint insert_by {A} (key : A -> Q) (a : A) (l : list A) : list A :=
  match l with
  | [] => [a]
  | b :: t => if Qle_bool (key a) (key b) then a :: b :: t else b :: insert_by key a t
  end.

Fixpoint sort_by {A} (key : A -> Q) (l : list A) : list A :=
  match l with
  | [] => []
  | a :: t => insert_by key a (sort_by key t)
  end.

(** Modelled from the spec: [BaseNeighbors._get_neighbors] (a k-d tree
    query), absent from the sources.  The [n_neighbors] window entries
    nearest to [v] under the Minkowski distance of order [p], ties broken
    by insertion order; it returns the distances and the window indices. *)
Definition get_neighbors (m : KNNRegressor) (w : window) (v : list Q) : list Q * list nat :=
  let keyed := combine (seq 0 (size w)) (entries w) in
  let ranked := sort_by (fun e : nat * (list Q * Q) => mpow (p m) v (fst (snd e))) keyed in
  let top := firstn (n_neighbors m) ranked in
  (map (fun e : nat * (list Q * Q) => qroot (p m) (mpow (p m) v (fst (snd e)))) top,
   map fst top).

(** ** Aggregation (numpy) *)

(** [np.mean] *)
Definition np_mean (vals : list Q) : flt :=
  fdiv (fsum (map F vals)) (F (inject_Z (Z.of_nat (length vals)))).

(** [np.median]: middle of the sorted values, mean of the two middle
    ones for an even count. *)
Definition np_median (vals : list Q) : flt :=
  let s := sort_by (fun q => q) vals in
  let n := length s in
  if Nat.eqb n 0 then NaN
  else if Nat.odd n then F (nth (n / 2) s 0)
  else F ((nth (n / 2 - 1) s 0 + nth (n / 2) s 0) / 2).

(** [np.average(a, weights=w)] *)
Definition np_average (a : list flt) (wts : list flt) : result flt :=
  let scl := fsum wts in
  if fis_zero scl then Err ZeroDivisionError
  else Ok (fdiv (fsum (map (fun e => fmul (fst e) (snd e)) (combine a wts))) scl).

(** The [weighted_mean] branch of [predict_one], lines 148-153. *)
Definition weighted_mean (dists vals : list Q) : result flt :=
  let sum_dist := fsum (map F dists) in
  let weights := map (fun d => fsub (F 1) (fdiv (F d) sum_dist)) dists in
  let weights := map (fun wt => fdiv wt (fsum weights)) weights in
  np_average (map F vals) weights.

(** The weighted mean in the words of the specification, to compare with
    [weighted_mean]: weight_i = 1 - d_i / sum_j d_j, renormalised so that
    the weights sum to 1, and prediction = sum_i weight_i * target_i. *)
Definition spec_weighted_mean (dists targets : list Q) : Q :=
  let S := Qsum dists in
  let w := map (fun d => 1 - d / S) dists in
  let W := Qsum w in
  Qsum (map (fun e => (fst e / W) * snd e) (combine w targets)).

Definition aggregate (method : string) (dists vals : list Q) : result flt :=
  if String.eqb method "mean" then Ok (np_mean vals)
  else if String.eqb method "median" then Ok (np_median vals)
  else weighted_mean dists vals.

(** [target_buffer[index]] *)
Definition py_index (l : list Q) (i : nat) : result Q :=
  match nth_error l i with Some v => Ok v | None => Err IndexError end.

Fixpoint map_result {A B} (f : A -> result B) (l : list A) : result (list B) :=
  match l with
  | [] => Ok []
  | a :: t => let* b := f a in let* bs := map_result f t in Ok (b :: bs)
  end.

(** [KNNRegressor.predict_one]: [None] is the no-prediction result. *)
Definition predict_one (s : state) (x : features) : result (option flt) * state :=
  let m := model s in
  match data_window m with
  | None => (Ok None, s)
  | Some w =>
      if Nat.ltb (size w) (n_neighbors m) then (Ok None, s)
      else
        let '(x_arr, reg') := dict2numpy (reg s) x in
        let '(dists, neighbor_idx) := get_neighbors m w x_arr in
        (let* neighbor_vals := map_result (py_index (targets_buffer w)) neighbor_idx in
         let* y_pred := aggregate (aggregation_method m) dists neighbor_vals in
         Ok (Some y_pred),
         mk_state m reg')
  end.

Fixpoint learn_many (s : state) (xs : list (features * Q)) : result state :=
  match xs with
  | [] => Ok s
  | (x, y) :: t => let* s' := learn_one s x y in learn_many s' t
  end.

Definition c3_samples : list (features * Q) :=
  [([("f", 1)], 10); ([("f", 2)], 20); ([("f", 3)], 30); ([("f", 4)], 40)].

(** The engine built for the worked example of the specification. *)
Definition c3_state : result state :=
  let* m := KNNRegressor_init 2 3 30 2 "mean" in
  learn_many (mk_state m []) c3_samples.

(** ** CountVectorizer ([creme/feature_extraction/vectorize.py]) *)

(** The text input: a [str], or a [dict] of string features. *)
Inductive text_input :=
| TStr (s : string)
| TDict (d : list (string * string)).

Record CountVectorizer := mk_cv {
  on : option string;
  strip_accents : bool;
  lowercase : bool;
  preprocessor : string -> string;
  tokenizer : string -> list string
}.

(** [\w] on ASCII characters *)
Definition is_word (c : ascii) : bool :=
  let n := nat_of_ascii c in
  (Nat.leb 48 n && Nat.leb n 57) || (Nat.leb 65 n && Nat.leb n 90)
  || (Nat.leb 97 n && Nat.leb n 122) || Nat.eqb n 95.

Definition lower_ascii (c : ascii) : ascii :=
  let n := nat_of_ascii c in
  if Nat.leb 65 n && Nat.leb n 90 then ascii_of_nat (n + 32) else c.

(** [str.lower] on ASCII strings *)
Fixpoint str_lower (s : string) : string :=
  match s with
  | EmptyString => EmptyString
  | String c t => String (lower_ascii c) (str_lower t)
  end.

(** [strip_accents_unicode]: ASCII text carries no combining accents. *)
Definition strip_accents_unicode (s : string) : string := s.

Definition compose (f g : string -> string) : string -> string := fun x => f (g x).

(** [VectorizerMixin.build_preprocessor] *)
Definition build_preprocessor (strip_accents lowercase : bool) : string -> string :=
  let steps := (if strip_accents then [strip_accents_unicode] else [])
               ++ (if lowercase then [str_lower] else []) in
  fold_left compose (rev steps) (fun x => x).

(** Maximal runs of word characters, scanned left to right. *)
Fixpoint word_runs (s : string) (cur : string) : list string :=
  match s with
  | EmptyString => [cur]
  | String c t =>
      if is_word c then word_runs t (cur ++ String c EmptyString)
      else cur :: word_runs t EmptyString
  end.

(** [VectorizerMixin.build_tokenizer]: [re.findall(r'(?u)\b\w\w+\b')]. *)
Definition build_tokenizer : string -> list string :=
  fun text => filter (fun w => Nat.leb 2 (String.length w)) (word_runs text EmptyString).

Definition CountVectorizer_init (on : option string) (strip_accents lowercase : bool)
    (preprocessor : option (string -> string)) (tokenizer : option (string -> list string))
  : CountVectorizer :=
  mk_cv on strip_accents lowercase
    (match preprocessor with Some f => f | None => build_preprocessor strip_accents lowercase end)
    (match tokenizer with Some f => f | None => build_tokenizer end).

(** [collections.Counter]: counts in order of first occurrence. *)
Definition counter := list (string * nat).

Fixpoint counter_add (c : counter) (w : string) : counter :=
  match c with
  | [] => [(w, 1%nat)]
  | (k, n) :: t => if String.eqb k w then (k, S n) :: t else (k, n) :: counter_add t w
  end.

Definition Counter (ws : list string) : counter := fold_left counter_add ws [].

(** [Counter[w]]: 0 for a missing key. *)
Fixpoint counter_get (c : counter) (w : string) : nat :=
  match c with
  | [] => 0%nat
  | (k, m) :: t => if String.eqb k w then m else counter_get t w
  end.

Definition is_upper (c : ascii) : bool :=
  let n := nat_of_ascii c in Nat.leb 65 n && Nat.leb n 90.

Fixpoint str_all (P : ascii -> bool) (s : string) : bool :=
  match s with
  | EmptyString => true
  | String c t => P c && str_all P t
  end.

(** [is_word], [str_lower] and [is_upper] follow Python's [\w],
    [str.lower] and [str.isupper] on ASCII characters only. *)
Definition is_ascii_str (s : string) : bool :=
  str_all (fun c => Nat.ltb (nat_of_ascii c) 128) s.

Fixpoint text_get (d : list (string * string)) (k : string) : option string :=
  match d with
  | [] => None
  | (k', v) :: t => if String.eqb k k' then Some v else text_get t k
  end.

(** [VectorizerMixin._get_text]. With [on = None] a dict is passed on to
    the string preprocessing, where Python fails at the first string
    operation it meets (an [AttributeError] in [strip_accents_unicode], for
    instance); the model stops it here, and no theorem says which
    exception is raised. *)
Definition _get_text (v : CountVectorizer) (x : text_input) : result string :=
  match on v, x with
  | Some k, TDict d => match text_get d k with Some s => Ok s | None => Err (KeyError k) end
  | Some _, TStr _ => Err TypeError
  | None, TStr s => Ok s
  | None, TDict _ => Err TypeError
  end.

(** [CountVectorizer.transform_one], with the vectorizer threaded through:
    the method assigns no attribute of [self]. *)
Definition transform_one (v : CountVectorizer) (x : text_input) : result counter * CountVectorizer :=
  (let* t := _get_text v x in Ok (Counter (tokenizer v (preprocessor v t))), v).


(** [compose( *functions)]: [functools.reduce(compose2, reversed(functions),
    lambda x: x)] with [compose2(f, g) = lambda x: f(g(x))]. *)
Definition compose2 {A} (f g : A -> A) : A -> A := fun x => f (g x).

Definition compose_all {A} (functions : list (A -> A)) : A -> A :=
  fold_left compose2 (rev functions) (fun x => x).

(** ** TFIDFVectorizer *)

(** [collections.defaultdict(int)] of document frequencies. *)
Definition dfs_t := list (string * nat).

Fixpoint dfs_lookup (d : dfs_t) (t : string) : option nat :=
  match d with
  | [] => None
  | (k, v) :: r => if String.eqb k t then Some v else dfs_lookup r t
  end.

(** [self.dfs[term]]: a missing key is inserted with the default 0. *)
Definition dfs_getitem (d : dfs_t) (t : string) : nat * dfs_t :=
  match dfs_lookup d t with
  | Some v => (v, d)
  | None => (0%nat, d ++ [(t, 0%nat)])
  end.

(** [self.dfs[term] = v] *)
Fixpoint dfs_set (d : dfs_t) (t : string) (v : nat) : dfs_t :=
  match d with
  | [] => [(t, v)]
  | (k, x) :: r => if String.eqb k t then (k, v) :: r else (k, x) :: dfs_set r t v
  end.

(** [self.dfs[term] += 1] *)
Definition dfs_incr (d : dfs_t) (t : string) : dfs_t :=
  let '(v, d') := dfs_getitem d t in dfs_set d' t (S v).

(** The value a read of the defaultdict gives. *)
Definition dfs_val (d : dfs_t) (t : string) : nat :=
  match dfs_lookup d t with Some v => v | None => 0%nat end.

Record TFIDFVectorizer := mk_tfidf {
  mixin : CountVectorizer;     (* on, strip_accents, lowercase, preprocessor, tokenizer *)
  normalize : bool;
  tfs : CountVectorizer;
  dfs : dfs_t;
  n : nat
}.

(** [TFIDFVectorizer.__init__]: the mixin and the inner [CountVectorizer]
    receive the same arguments, [on] included. *)
Definition TFIDFVectorizer_init (on : option string) (strip_accents lowercase : bool)
    (preprocessor : option (string -> string)) (tokenizer : option (string -> list string))
    (normalize : bool) : TFIDFVectorizer :=
  mk_tfidf (CountVectorizer_init on strip_accents lowercase preprocessor tokenizer) normalize
    (CountVectorizer_init on strip_accents lowercase preprocessor tokenizer) [] 0.

Definition set_dfs (v : TFIDFVectorizer) (d : dfs_t) : TFIDFVectorizer :=
  mk_tfidf (mixin v) (normalize v) (tfs v) d (n v).

(** [tfidfs[term] = value] on a plain dict *)
Fixpoint dict_set_q (d : list (string * Q)) (t : string) (x : Q) : list (string * Q) :=
  match d with
  | [] => [(t, x)]
  | (k, y) :: r => if String.eqb k t then (k, x) :: r else (k, y) :: dict_set_q r t x
  end.

Definition inject_nat (k : nat) : Q := inject_Z (Z.of_nat k).

(** [sum(term_counts.values())] *)
Definition n_terms_of (term_counts : counter) : nat :=
  fold_right (fun e acc => (snd e + acc)%nat) 0%nat term_counts.

Section Tfidf.

(** [math.log] and [math.sqrt], on the arguments the code gives them. *)
Variable log : Q -> Q.
Variable sqrt : Q -> Q.

(** The loop of [compute_tfidfs]: [count / n_terms] raises on a zero
    [n_terms] (integer true division) before the frequency is read. *)
Fixpoint tfidf_loop (nd n_terms : nat) (tc : counter) (acc : list (string * Q)) (d : dfs_t)
  : result (list (string * Q)) * dfs_t :=
  match tc with
  | [] => (Ok acc, d)
  | (term, count) :: rest =>
      if Nat.eqb n_terms 0 then (Err ZeroDivisionError, d)
      else
        let tf := inject_nat count / inject_nat n_terms in
        let '(df, d') := dfs_getitem d term in
        let idf := log ((1 + inject_nat nd) / (1 + inject_nat df)) + 1 in
        tfidf_loop nd n_terms rest (dict_set_q acc term (tf * idf)) d'
  end.

(** [TFIDFVectorizer.compute_tfidfs], returning the updated [dfs]: the
    reads [self.dfs[term]] insert missing terms.  A float divided by a
    zero [norm] raises. *)
Definition compute_tfidfs (v : TFIDFVectorizer) (term_counts : counter)
  : result (list (string * Q)) * dfs_t :=
  let n_terms := n_terms_of term_counts in
  let '(r, d) := tfidf_loop (n v) n_terms term_counts [] (dfs v) in
  match r with
  | Err e => (Err e, d)
  | Ok tfidfs =>
      if normalize v then
        let norm := sqrt (Qsum (map (fun e => snd e * snd e) tfidfs)) in
        (map_result (fun e => if Qeq_bool norm 0 then Err ZeroDivisionError
                              else Ok (fst e, snd e / norm)) tfidfs, d)
      else (Ok tfidfs, d)
  end.

(** [TFIDFVectorizer.transform_one] with the vectorizer threaded through. *)
Definition tfidf_transform_one (v : TFIDFVectorizer) (x : text_input)
  : result (list (string * Q)) * TFIDFVectorizer :=
  match _get_text (mixin v) x with
  | Err e => (Err e, v)
  | Ok text =>
      match fst (transform_one (tfs v) (TStr text)) with
      | Err e => (Err e, v)
      | Ok term_counts =>
          let '(r, d) := compute_tfidfs v term_counts in (r, set_dfs v d)
      end
  end.

End Tfidf.

(** Modelled from the spec: [base.Transformer.fit_one], absent from the
    sources; the text transformers keep no state of their own, it returns
    [self] unchanged. *)
Definition Transformer_fit_one (v : CountVectorizer) (x : text_input) : CountVectorizer := v.

(** [TFIDFVectorizer.fit_one]: returns [self] ([Ok tt]) or raises. *)
Definition tfidf_fit_one (v : TFIDFVectorizer) (x : text_input) : result unit * TFIDFVectorizer :=
  match _get_text (mixin v) x with
  | Err e => (Err e, v)
  | Ok text =>
      let tfs' := Transformer_fit_one (tfs v) (TStr text) in
      match fst (transform_one tfs' (TStr text)) with
      | Err e => (Err e, mk_tfidf (mixin v) (normalize v) tfs' (dfs v) (n v))
      | Ok term_counts =>
          (Ok tt, mk_tfidf (mixin v) (normalize v) tfs'
                    (fold_left (fun d e => dfs_incr d (fst e)) term_counts (dfs v)) (S (n v)))
      end
  end.

(** A call on the vectorizer, its exception caught by the caller. *)
Inductive tfidf_call :=
| Fit (x : text_input)
| Transform (x : text_input).

Fixpoint tfidf_run (log sqrt : Q -> Q) (v : TFIDFVectorizer) (calls : list tfidf_call)
  : TFIDFVectorizer :=
  match calls with
  | [] => v
  | Fit x :: rest => tfidf_run log sqrt (snd (tfidf_fit_one v x)) rest
  | Transform x :: rest => tfidf_run log sqrt (snd (tfidf_transform_one log sqrt v x)) rest
  end.

(** The window of the worked example after its four samples. *)
Definition c3_window : window := mk_window 3 [([2], 20); ([3], 30); ([4], 40)].

(** One sample at 0 with target 10, [n_neighbors = 1], weighted mean. *)
Definition knn_one_weighted : result state :=
  let* m := KNNRegressor_init 1 3 30 1 "weighted_mean" in
  learn_many (mk_state m []) [([("f", 0)], 10)].

(** Two samples, at 0 (target 10) and 4 (target 50), [n_neighbors = 2],
    weighted mean with the Manhattan distance. *)
Definition knn_two_weighted : result state :=
  let* m := KNNRegressor_init 2 3 30 1 "weighted_mean" in
  learn_many (mk_state m []) [([("f", 0)], 10); ([("f", 4)], 50)].

(** * Properties *)

(** ** Registry lemmas *)

Lemma existsb_eqb_In (k : string) (r : registry) :
  existsb (String.eqb k) r = true <-> In k r.
Proof.
  rewrite existsb_exists. split.
  - intros [k' [Hin Heq]]. apply String.eqb_eq in Heq. subst. exact Hin.
  - intros Hin. exists k. split; [exact Hin | apply String.eqb_refl].
Qed.

Lemma register_cons (r : registry) (kv : string * Q) (x : features) :
  register r (kv :: x) =
  register (if existsb (String.eqb (fst kv)) r then r else app r [fst kv]) x.
Proof. reflexivity. Qed.

Lemma register_mono (x : features) : forall r k, In k r -> In k (register r x).
Proof.
  induction x as [|kv x IH]; intros r k Hin; [exact Hin|].
  rewrite register_cons. apply IH.
  destruct (existsb _ r); [exact Hin | apply in_or_app; left; exact Hin].
Qed.

Lemma register_contains (x : features) : forall r k, In k (map fst x) -> In k (register r x).
Proof.
  induction x as [|kv x IH]; intros r k Hin; [destruct Hin|].
  rewrite register_cons. destruct Hin as [Heq | Hin].
  - apply register_mono. subst k.
    destruct (existsb (String.eqb (fst kv)) r) eqn:E.
    + apply existsb_eqb_In. exact E.
    + apply in_or_app. right. left. reflexivity.
  - apply IH. exact Hin.
Qed.

Lemma register_noop (x : features) : forall r,
  (forall k, In k (map fst x) -> In k r) -> register r x = r.
Proof.
  induction x as [|kv x IH]; intros r H; [reflexivity|].
  rewrite register_cons.
  assert (E : existsb (String.eqb (fst kv)) r = true).
  { apply existsb_eqb_In. apply H. left. reflexivity. }
  rewrite E. apply IH. intros k Hk. apply H. right. exact Hk.
Qed.

Lemma register_idem (r : registry) (x : features) :
  register (register r x) x = register r x.
Proof. apply register_noop. intros k Hk. apply register_contains. exact Hk. Qed.

Lemma dict2numpy_idem (r : registry) (x : features) :
  dict2numpy (register r x) x = dict2numpy r x.
Proof. unfold dict2numpy. simpl. rewrite register_idem. reflexivity. Qed.

(** ** predict_one leaves the regressor alone *)

Lemma predict_one_model (s : state) (x : features) :
  model (snd (predict_one s x)) = model s.
Proof.
  unfold predict_one.
  destruct (data_window (model s)) as [w|]; [|reflexivity].
  destruct (Nat.ltb _ _); [reflexivity|].
  destruct (dict2numpy (reg s) x) as [x_arr reg'].
  destruct (get_neighbors (model s) w x_arr). reflexivity.
Qed.

Lemma predict_one_reg (s : state) (x : features) :
  reg (snd (predict_one s x)) = reg s \/ reg (snd (predict_one s x)) = snd (dict2numpy (reg s) x).
Proof.
  unfold predict_one.
  destruct (data_window (model s)) as [w|]; [|left; reflexivity].
  destruct (Nat.ltb _ _); [left; reflexivity|].
  destruct (dict2numpy (reg s) x) as [x_arr reg'] eqn:E.
  destruct (get_neighbors (model s) w x_arr). right. reflexivity.
Qed.

(** ** C3 *)

(** C3: with [n_neighbors = 2], [max_window_size = 3], [p = 2] and the
    mean, after learning (1,10), (2,20), (3,30), (4,40) the window holds
    the samples with targets 20, 30, 40; the query 3.5 retrieves the
    samples at 3 and 4, both at distance 0.5, and predicts 35. *)
Theorem c3_mean_scenario :
  exists s, c3_state = Ok s
  /\ data_window (model s) = Some (mk_window 3 [([2], 20); ([3], 30); ([4], 40)])
  /\ targets_buffer (mk_window 3 [([2], 20); ([3], 30); ([4], 40)]) = [20; 30; 40]
  /\ get_neighbors (model s) (mk_window 3 [([2], 20); ([3], 30); ([4], 40)]) [3.5]
     = ([1 # 2; 1 # 2], [1%nat; 2%nat])
  /\ fst (dict2numpy (reg s) [("f", 3.5)]) = [3.5]
  /\ exists q, fst (predict_one s [("f", 3.5)]) = Ok (Some (F q)) /\ q == 35.
Proof.
  eexists. split; [vm_compute; reflexivity|].
  split; [reflexivity|]. split; [reflexivity|].
  split; [vm_compute; reflexivity|]. split; [vm_compute; reflexivity|].
  exists (70 # 2). split; [vm_compute; reflexivity | reflexivity].
Qed.

(** ** C5 *)

(** C5: an aggregation method outside the valid set makes the constructor
    fail at once, but with an attribute error on [self.f_WEIGHTED_MEAN]
    raised while the [ValueError] message is being built, not with the
    intended invalid-argument error. *)
Theorem knn_init_invalid_method_attribute_error :
  KNNRegressor_init 5 1000 30 2 "mode" = Err (AttributeError "f_WEIGHTED_MEAN").
Proof. reflexivity. Qed.

(** ** C9 *)

(** C9: [CountVectorizer.transform_one] leaves the vectorizer unchanged,
    its result is a function of the input and of the configuration only,
    and a repeated call on the same input gives the same result. *)
Theorem transform_one_stateless :
  (forall v x, snd (transform_one v x) = v)
  /\ (exists f : option string -> (string -> string) -> (string -> list string)
                 -> text_input -> result counter,
        forall v x, fst (transform_one v x) = f (on v) (preprocessor v) (tokenizer v) x)
  /\ (forall v x, fst (transform_one (snd (transform_one v x)) x) = fst (transform_one v x)).
Proof.
  split; [intros; reflexivity|]. split; [|intros; reflexivity].
  exists (fun o pre tok x => fst (transform_one (mk_cv o true true pre tok) x)).
  intros [o sa lc pre tok] x. destruct x; destruct o; reflexivity.
Qed.

(** ** C10 *)

(** C10: [predict_one] changes no attribute of the regressor: the window
    and the configuration are the same before and after the call,
    whichever result it returns. *)
Theorem predict_one_frame (s : state) (x : features) :
  model (snd (predict_one s x)) = model s
  /\ data_window (model (snd (predict_one s x))) = data_window (model s)
  /\ n_neighbors (model (snd (predict_one s x))) = n_neighbors (model s)
  /\ max_window_size (model (snd (predict_one s x))) = max_window_size (model s)
  /\ leaf_size (model (snd (predict_one s x))) = leaf_size (model s)
  /\ p (model (snd (predict_one s x))) = p (model s)
  /\ aggregation_method (model (snd (predict_one s x))) = aggregation_method (model s).
Proof. rewrite predict_one_model. repeat split. Qed.

(** ** C7 *)

(** C7: two consecutive calls of [predict_one] on the same input, with
    no [learn_one] in between, return the same result. *)
Theorem predict_one_deterministic (s : state) (x : features) :
  fst (predict_one (snd (predict_one s x)) x) = fst (predict_one s x).
Proof.
  destruct (predict_one_reg s x) as [Hr | Hr];
    destruct (snd (predict_one s x)) as [m1 r1] eqn:E;
    pose proof (predict_one_model s x) as Hm; rewrite E in Hm; simpl in Hm, Hr; subst.
  - destruct s; reflexivity.
  - destruct s as [m r]. cbn [model reg] in *.
    unfold predict_one. cbn [model reg].
    rewrite dict2numpy_idem.
    destruct (data_window m) as [w|]; [|reflexivity].
    destruct (Nat.ltb _ _); [reflexivity|].
    destruct (dict2numpy r x) as [v r']. destruct (get_neighbors m w v). reflexivity.
Qed.

(** ** Window capacity *)

Lemma add_one_size (w : window) (v : list Q) (y : Q) :
  (0 < window_size w)%nat -> (size w <= window_size w)%nat ->
  size (add_one w v y) = Nat.min (S (size w)) (window_size w)
  /\ window_size (add_one w v y) = window_size w.
Proof.
  intros Hc Hs. unfold add_one, size in *. cbn [window_size entries]. split; [|reflexivity].
  destruct (window_size w) as [|c]; [lia|].
  destruct (entries w) as [|e es]; cbn [app length tl] in *.
  - destruct (Nat.ltb_spec (S c) 1); cbn [length tl]; lia.
  - rewrite length_app. cbn [length].
    destruct (Nat.ltb_spec (S c) (S (length es + 1))); cbn [length tl];
      rewrite ?length_app; cbn [length]; lia.
Qed.

Lemma learn_many_size (xs : list (features * Q)) : forall m r w,
  data_window m = Some w -> (0 < window_size w)%nat -> (size w <= window_size w)%nat ->
  exists s', learn_many (mk_state m r) xs = Ok s'
  /\ exists w', data_window (model s') = Some w' /\ window_size w' = window_size w
     /\ size w' = Nat.min (size w + length xs) (window_size w).
Proof.
  induction xs as [|[x y] xs IH]; intros m r w Hw Hc Hs.
  - exists (mk_state m r). split; [reflexivity|]. exists w. simpl.
    rewrite Nat.add_0_r, Nat.min_l by exact Hs. auto.
  - simpl. unfold learn_one. cbn [reg model].
    destruct (dict2numpy r x) as [v r']. rewrite Hw. simpl.
    destruct (add_one_size w v y Hc Hs) as [H1 H2].
    destruct (IH (set_window m (add_one w v y)) r' (add_one w v y)) as [s' [Hl [w' [Hw' [Hc' Hs']]]]];
      [reflexivity | rewrite H2; exact Hc | rewrite H1, H2; lia |].
    exists s'. split; [exact Hl|]. exists w'. split; [exact Hw'|].
    rewrite Hc', H2. split; [reflexivity|]. rewrite Hs', H1, H2. lia.
Qed.

Lemma KNNRegressor_init_ok (n c l : nat) (pp : positive) (a : string) (m : KNNRegressor) :
  KNNRegressor_init n c l pp a = Ok m ->
  n <> 0%nat /\ c <> 0%nat /\ l <> 0%nat /\ in_valid_set a = true
  /\ m = mk_knn n c l pp a (Some (mk_window c [])).
Proof.
  unfold KNNRegressor_init, BaseNeighbors_init.
  destruct (Nat.eqb_spec n 0); [discriminate|].
  destruct (Nat.eqb_spec c 0); [discriminate|].
  destruct (Nat.eqb_spec l 0); [discriminate|].
  simpl. destruct (in_valid_set a); simpl; [|discriminate].
  intros H. inversion H. auto.
Qed.

(** C2: from a freshly constructed regressor with capacity [c], after any
    sequence of [learn_one] calls the window holds at most [c] entries,
    and exactly [min(#calls, c)], hence exactly [c] once [c] samples have
    been learnt. *)
Theorem window_capacity_invariant (n c l : nat) (pp : positive) (a : string) (m : KNNRegressor) :
  KNNRegressor_init n c l pp a = Ok m ->
  forall (r : registry) (xs : list (features * Q)),
  exists s', learn_many (mk_state m r) xs = Ok s'
  /\ exists w, data_window (model s') = Some w
     /\ (size w <= c)%nat /\ size w = Nat.min (length xs) c.
Proof.
  intros H r xs. apply KNNRegressor_init_ok in H.
  destruct H as [_ [Hc [_ [_ ->]]]].
  destruct (learn_many_size xs (mk_knn n c l pp a (Some (mk_window c []))) r (mk_window c []))
    as [s' [Hl [w' [Hw' [Hc' Hs']]]]]; [reflexivity | simpl; lia | unfold size; simpl; lia |].
  exists s'. split; [exact Hl|]. exists w'. unfold size in Hs' |- *. simpl in Hc', Hs'.
  split; [exact Hw'|]. rewrite Hs'. split; lia.
Qed.

(** ** Feature codec *)

Lemma register_new (x : features) : forall r,
  exists new, register r x = r ++ new /\ NoDup new
  /\ (forall k, In k new <-> In k (map fst x) /\ ~ In k r).
Proof.
  induction x as [|[k v] x IH]; intros r.
  - exists []. rewrite app_nil_r. split; [reflexivity|]. split; [constructor|].
    intros k. simpl. tauto.
  - rewrite register_cons. cbn [fst].
    destruct (existsb (String.eqb k) r) eqn:E.
    + apply existsb_eqb_In in E. destruct (IH r) as [new [H1 [H2 H3]]].
      exists new. split; [exact H1|]. split; [exact H2|].
      intros k'. rewrite H3. simpl. split; [tauto|].
      intros [[Heq | Hin] Hn]; [subst; contradiction | tauto].
    + assert (Hk : ~ In k r) by (intro Hin; apply existsb_eqb_In in Hin; congruence).
      destruct (IH (r ++ [k])) as [new [H1 [H2 H3]]].
      exists (k :: new). split; [rewrite H1, <- app_assoc; reflexivity|]. split.
      * constructor; [|exact H2]. intro Hin. apply H3 in Hin. destruct Hin as [_ Hn].
        apply Hn. apply in_or_app. right. left. reflexivity.
      * intros k'. simpl. rewrite H3, in_app_iff. simpl. split.
        -- intros [Heq | [Hin Hn]]; [subst; tauto | tauto].
        -- intros [[Heq | Hin] Hn]; [left; exact Heq|].
           destruct (String.eqb_spec k k') as [e | ne]; [left; exact e|].
           right. split; [exact Hin|]. intros [H' | [H' | []]]; [contradiction | congruence].
Qed.

Lemma dict_get_absent (x : features) (k : string) :
  ~ In k (map fst x) -> dict_get x k = None.
Proof.
  induction x as [|[k' v] x IH]; intros Hn; [reflexivity|].
  simpl in *. destruct (String.eqb_spec k k'); [subst; tauto|].
  apply IH. tauto.
Qed.

(** C6 (modelled codec): projecting [x] appends every name of [x] not yet
    registered, once, at the end of the global ordering, and returns a
    vector as long as the new ordering whose i-th entry is the value in
    [x] of the i-th registered name, 0 for the names [x] lacks. *)
Theorem dict2numpy_projection (r : registry) (x : features) :
  (exists new, snd (dict2numpy r x) = r ++ new /\ NoDup new
     /\ (forall k, In k new <-> In k (map fst x) /\ ~ In k r))
  /\ length (fst (dict2numpy r x)) = length (snd (dict2numpy r x))
  /\ (forall i k, nth_error (snd (dict2numpy r x)) i = Some k ->
        nth_error (fst (dict2numpy r x)) i
        = Some (match dict_get x k with Some v => v | None => 0 end))
  /\ (forall i k, nth_error (snd (dict2numpy r x)) i = Some k -> ~ In k (map fst x) ->
        nth_error (fst (dict2numpy r x)) i = Some 0).
Proof.
  unfold dict2numpy. cbn [fst snd].
  split; [apply register_new|]. split; [apply length_map|].
  assert (Hn : forall i k, nth_error (register r x) i = Some k ->
     nth_error (map (fun k => match dict_get x k with Some v => v | None => 0 end) (register r x)) i
     = Some (match dict_get x k with Some v => v | None => 0 end)).
  { intros i k H. rewrite nth_error_map, H. reflexivity. }
  split; [exact Hn|].
  intros i k H Ha. rewrite (Hn i k H), dict_get_absent by exact Ha. reflexivity.
Qed.

(** ** Neighbour query shape *)

Lemma insert_by_perm {A} (key : A -> Q) (a : A) (l : list A) :
  Permutation (insert_by key a l) (a :: l).
Proof.
  induction l as [|b t IH]; simpl; [reflexivity|].
  destruct (Qle_bool (key a) (key b)); [reflexivity|].
  rewrite IH. apply perm_swap.
Qed.

Lemma sort_by_perm {A} (key : A -> Q) (l : list A) : Permutation (sort_by key l) l.
Proof.
  induction l as [|a t IH]; simpl; [reflexivity|].
  rewrite insert_by_perm. apply perm_skip. exact IH.
Qed.

Lemma In_firstn {A} (n : nat) (l : list A) (a : A) : In a (firstn n l) -> In a l.
Proof.
  intros H. rewrite <- (firstn_skipn n l). apply in_or_app. left. exact H.
Qed.

Lemma zroot_aux_nonneg (fuel : nat) : forall p n lo hi,
  (0 <= lo)%Z -> (0 <= zroot_aux fuel p n lo hi)%Z.
Proof.
  induction fuel as [|f IH]; intros pp n lo hi Hlo; simpl; [exact Hlo|].
  destruct (Z.leb_spec (hi - lo) 1); [exact Hlo|].
  assert (Hm : (0 <= (lo + hi) / 2)%Z) by (apply Z.div_pos; lia).
  destruct (_ <=? n)%Z; apply IH; lia.
Qed.

Lemma qroot_nonneg (pp : positive) (q : Q) : 0 <= qroot pp q.
Proof.
  unfold qroot, zroot, Qle. simpl.
  pose proof (zroot_aux_nonneg (Z.to_nat (Z.log2 (Qnum (Qred q)) + 2)) pp (Qnum (Qred q)) 0
                (Qnum (Qred q) + 1) (Z.le_refl 0)).
  lia.
Qed.

Lemma get_neighbors_shape (m : KNNRegressor) (w : window) (v : list Q) dists idx :
  get_neighbors m w v = (dists, idx) -> (n_neighbors m <= size w)%nat ->
  length dists = n_neighbors m /\ length idx = n_neighbors m
  /\ Forall (fun d => 0 <= d) dists /\ Forall (fun i => i < size w)%nat idx.
Proof.
  unfold get_neighbors. intros H Hn. inversion H; subst dists idx; clear H.
  set (keyed := combine (seq 0 (size w)) (entries w)).
  set (key := fun e : nat * (list Q * Q) => mpow (p m) v (fst (snd e))).
  assert (Hlen : length (firstn (n_neighbors m) (sort_by key keyed)) = n_neighbors m).
  { rewrite length_firstn, (Permutation_length (sort_by_perm key keyed)).
    unfold keyed. rewrite length_combine, length_seq. unfold size in *. lia. }
  split; [rewrite length_map; exact Hlen|].
  split; [rewrite length_map; exact Hlen|].
  split; apply Forall_forall; intros y Hy; apply in_map_iff in Hy;
    destruct Hy as [[i e] [Heq Hin]]; subst y.
  - apply qroot_nonneg.
  - simpl. apply In_firstn, (Permutation_in _ (sort_by_perm key keyed)) in Hin.
    apply in_combine_l, in_seq in Hin. lia.
Qed.

Lemma map_result_index (l : list Q) (idx : list nat) :
  Forall (fun i => i < length l)%nat idx ->
  map_result (py_index l) idx = Ok (map (fun i => nth i l 0) idx).
Proof.
  induction 1 as [|i t Hi Ht IH]; [reflexivity|].
  simpl. unfold py_index at 1. rewrite (nth_error_nth' l 0 Hi). simpl. rewrite IH. reflexivity.
Qed.

Lemma targets_buffer_length (w : window) : length (targets_buffer w) = size w.
Proof. unfold targets_buffer, size. apply length_map. Qed.

(** ** Float lemmas *)

Lemma fsum_cons (a : flt) (l : list flt) : fsum (a :: l) = fadd a (fsum l).
Proof. reflexivity. Qed.

Lemma fsum_map_F (l : list Q) : fsum (map F l) = F (Qsum l).
Proof.
  induction l as [|a l IH]; [reflexivity|].
  cbn [map]. rewrite fsum_cons, IH. reflexivity.
Qed.

Lemma fadd_NaN_l (b : flt) : fadd NaN b = NaN.
Proof. destruct b; reflexivity. Qed.

Lemma fdiv_NaN_r (a : flt) : fdiv a NaN = NaN.
Proof. destruct a; reflexivity. Qed.

Lemma fmul_NaN_r (a : flt) : fmul a NaN = NaN.
Proof. destruct a; reflexivity. Qed.

Lemma fdiv_F_zero (a b : Q) : a == 0 -> Qeq_bool b 0 = true -> fdiv (F a) (F b) = NaN.
Proof.
  intros Ha Hb. unfold fdiv. rewrite Hb. unfold qsign.
  apply Qeq_alt in Ha. rewrite Ha. reflexivity.
Qed.

Lemma fdiv_F_nonzero (a b : Q) : ~ b == 0 -> fdiv (F a) (F b) = F (a / b).
Proof.
  intros Hb. unfold fdiv. destruct (Qeq_bool b 0) eqn:E; [|reflexivity].
  apply Qeq_bool_iff in E. contradiction.
Qed.

Lemma Qsum_cons (a : Q) (l : list Q) : Qsum (a :: l) = a + Qsum l.
Proof. reflexivity. Qed.

Lemma Qsum_nonneg (l : list Q) : Forall (fun d => 0 <= d) l -> 0 <= Qsum l.
Proof. induction 1; simpl; lra. Qed.

Lemma Qsum_zero_head (d : Q) (l : list Q) :
  Forall (fun d => 0 <= d) (d :: l) -> Qsum (d :: l) == 0 -> d == 0.
Proof.
  intros H Hs. inversion H; subst. pose proof (Qsum_nonneg l H3).
  rewrite Qsum_cons in Hs. lra.
Qed.

Lemma Qsum_map_div (l : list Q) (W : Q) : Qsum (map (fun x => x / W) l) == Qsum l / W.
Proof.
  induction l as [|a l IH]; [reflexivity|].
  cbn [map]. rewrite !Qsum_cons, IH. unfold Qdiv. ring.
Qed.

Lemma Qsum_weights (l : list Q) (S : Q) : ~ S == 0 ->
  Qsum (map (fun d => 1 - d / S) l) == inject_Z (Z.of_nat (length l)) - Qsum l / S.
Proof.
  intros HS. induction l as [|a l IH].
  - simpl. unfold Qdiv. reflexivity.
  - cbn [map length]. rewrite !Qsum_cons, IH. rewrite Nat2Z.inj_succ. unfold Z.succ.
    rewrite inject_Z_plus. field. exact HS.
Qed.

Lemma combine_map_F (a b : list Q) :
  combine (map F a) (map F b) = map (fun e => (F (fst e), F (snd e))) (combine a b).
Proof.
  revert b. induction a as [|x a IH]; intros [|y b]; simpl; try reflexivity.
  rewrite IH. reflexivity.
Qed.

Lemma Qsum_combine_swap (a b : list Q) (g : Q -> Q) :
  Qsum (map (fun e => fst e * snd e) (combine a (map g b)))
  == Qsum (map (fun e => g (fst e) * snd e) (combine b a)).
Proof.
  revert b. induction a as [|x a IH]; intros [|y b]; try reflexivity.
  cbn [map combine fst snd]. rewrite !Qsum_cons, IH. simpl. ring.
Qed.

(** ** The weighted mean *)

Lemma weighted_mean_zero (d0 : Q) (ds : list Q) (v0 : Q) (vs : list Q) :
  Qsum (d0 :: ds) == 0 -> d0 == 0 -> weighted_mean (d0 :: ds) (v0 :: vs) = Ok NaN.
Proof.
  intros HS Hd. unfold weighted_mean, np_average. cbv beta zeta. rewrite fsum_map_F.
  assert (HSb : Qeq_bool (Qsum (d0 :: ds)) 0 = true) by (apply Qeq_bool_iff; exact HS).
  cbn [map]. rewrite (fdiv_F_zero d0 _ Hd HSb).
  change (fsub (F 1) NaN) with NaN. rewrite !fsum_cons, !fadd_NaN_l, !fdiv_NaN_r.
  cbn [combine map fst snd].
  reflexivity.
Qed.

Lemma map_fmul_F (a b : list Q) :
  map (fun e => fmul (fst e) (snd e)) (combine (map F a) (map F b))
  = map F (map (fun e => fst e * snd e) (combine a b)).
Proof.
  revert b. induction a as [|x a IH]; intros [|y b]; try reflexivity.
  cbn [map combine]. rewrite IH. reflexivity.
Qed.

Lemma weighted_mean_refines (dists vals : list Q) :
  length vals = length dists -> (2 <= length dists)%nat -> ~ Qsum dists == 0 ->
  exists q, weighted_mean dists vals = Ok (F q) /\ q == spec_weighted_mean dists vals.
Proof.
  intros Hl Hk HS.
  set (S := Qsum dists) in *.
  set (w := map (fun d => 1 - d / S) dists).
  set (W := Qsum w).
  assert (HW : W == inject_Z (Z.of_nat (length dists)) - 1).
  { unfold W, w. rewrite Qsum_weights by exact HS. fold S. field. exact HS. }
  assert (HW0 : ~ W == 0).
  { rewrite HW. assert (H2 : inject_Z 2 <= inject_Z (Z.of_nat (length dists)))
      by (rewrite <- Zle_Qle; lia).
    change (inject_Z 2) with 2 in H2. lra. }
  set (w2 := map (fun x => x / W) w).
  assert (HW2 : Qsum w2 == 1).
  { unfold w2. rewrite Qsum_map_div. fold W. field. exact HW0. }
  assert (HW20 : ~ Qsum w2 == 0) by (rewrite HW2; intro H; lra).
  unfold weighted_mean, np_average. cbv beta zeta. rewrite fsum_map_F. fold S.
  replace (map (fun d => fsub (F 1) (fdiv (F d) (F S))) dists) with (map F w)
    by (unfold w; rewrite map_map; apply map_ext; intros d;
        rewrite fdiv_F_nonzero by exact HS; reflexivity).
  rewrite fsum_map_F. fold W.
  replace (map (fun wt => fdiv wt (F W)) (map F w)) with (map F w2)
    by (unfold w2; rewrite !map_map; apply map_ext; intros x;
        rewrite fdiv_F_nonzero by exact HW0; reflexivity).
  rewrite fsum_map_F. unfold fis_zero.
  destruct (Qeq_bool (Qsum w2) 0) eqn:E; [apply Qeq_bool_iff in E; contradiction|].
  rewrite map_fmul_F, fsum_map_F, fdiv_F_nonzero by exact HW20.
  eexists. split; [reflexivity|].
  unfold spec_weighted_mean. cbv zeta. fold S. fold w. fold W.
  rewrite HW2. unfold w2. rewrite Qsum_combine_swap. cbv beta. field.
Qed.

Lemma weighted_mean_single (d v : Q) : ~ d == 0 -> weighted_mean [d] [v] = Ok NaN.
Proof.
  intros Hd. unfold weighted_mean, np_average. cbv beta zeta. rewrite fsum_map_F.
  cbn [map]. rewrite fdiv_F_nonzero by (rewrite Qsum_cons; simpl; lra).
  rewrite fsum_cons. cbn [fsum fold_right fadd fsub].
  rewrite fdiv_F_zero.
  - reflexivity.
  - rewrite Qsum_cons. simpl. field. lra.
  - apply Qeq_bool_iff. rewrite Qsum_cons. simpl. field. lra.
Qed.

Lemma weighted_mean_ok (dists vals : list Q) :
  Forall (fun d => 0 <= d) dists -> length vals = length dists -> (1 <= length dists)%nat ->
  exists r, weighted_mean dists vals = Ok r.
Proof.
  intros Hnn Hl Hk.
  destruct dists as [|d0 ds]; [simpl in Hk; lia|].
  destruct vals as [|v0 vs]; [discriminate|].
  destruct (Qeq_dec (Qsum (d0 :: ds)) 0) as [Hz | Hnz].
  - exists NaN. apply weighted_mean_zero; [exact Hz|].
    exact (Qsum_zero_head d0 ds Hnn Hz).
  - destruct ds as [|d1 ds].
    + destruct vs; [|discriminate]. exists NaN. apply weighted_mean_single.
      intro H. apply Hnz. rewrite Qsum_cons. simpl. lra.
    + destruct (weighted_mean_refines (d0 :: d1 :: ds) (v0 :: vs)) as [q [Hq _]];
        [exact Hl | simpl; lia | exact Hnz |].
      exists (F q). exact Hq.
Qed.

(** ** predict_one past the sentinel *)

Lemma predict_one_values (s : state) (x : features) (w : window) dists idx :
  data_window (model s) = Some w -> (n_neighbors (model s) <= size w)%nat ->
  get_neighbors (model s) w (fst (dict2numpy (reg s) x)) = (dists, idx) ->
  fst (predict_one s x)
  = (let* y := aggregate (aggregation_method (model s)) dists
                 (map (fun i => nth i (targets_buffer w) 0) idx) in Ok (Some y)).
Proof.
  intros Hw Hn G.
  destruct (get_neighbors_shape _ _ _ _ _ G Hn) as [_ [_ [_ Hidx]]].
  unfold predict_one. rewrite Hw.
  destruct (Nat.ltb_spec (size w) (n_neighbors (model s))); [lia|].
  destruct (dict2numpy (reg s) x) as [v r'] eqn:D. cbn [fst] in G. rewrite G.
  cbn [fst]. rewrite map_result_index; [reflexivity|].
  rewrite targets_buffer_length. exact Hidx.
Qed.

(** ** C1 *)

(** C1: for a regressor with a window and [n_neighbors > 0] (every
    constructed one), [predict_one] returns the no-prediction result
    [None] exactly when the window holds fewer than [n_neighbors]
    entries, and otherwise a number (never an exception). *)
Theorem predict_one_sentinel (s : state) (x : features) (w : window) :
  (0 < n_neighbors (model s))%nat -> data_window (model s) = Some w ->
  (fst (predict_one s x) = Ok None <-> (size w < n_neighbors (model s))%nat)
  /\ ((n_neighbors (model s) <= size w)%nat -> exists v, fst (predict_one s x) = Ok (Some v)).
Proof.
  intros Hpos Hw.
  assert (Hge : (n_neighbors (model s) <= size w)%nat ->
                exists v, fst (predict_one s x) = Ok (Some v)).
  { intros Hn.
    destruct (get_neighbors (model s) w (fst (dict2numpy (reg s) x))) as [dists idx] eqn:G.
    destruct (get_neighbors_shape _ _ _ _ _ G Hn) as [Hld [Hli [Hnn _]]].
    rewrite (predict_one_values s x w dists idx Hw Hn G).
    unfold aggregate.
    destruct (String.eqb _ "mean"); [eexists; reflexivity|].
    destruct (String.eqb _ "median"); [eexists; reflexivity|].
    destruct (weighted_mean_ok dists (map (fun i => nth i (targets_buffer w) 0) idx))
      as [r Hr]; [exact Hnn | rewrite length_map; lia | lia |].
    rewrite Hr. eexists. reflexivity. }
  split; [|exact Hge].
  split.
  - intros H. destruct (Nat.ltb_spec (size w) (n_neighbors (model s))) as [Hlt | Hn];
      [exact Hlt|].
    destruct (Hge Hn) as [v Hv]. rewrite Hv in H. discriminate.
  - intros Hlt. unfold predict_one. rewrite Hw.
    destruct (Nat.ltb_spec (size w) (n_neighbors (model s))); [reflexivity | lia].
Qed.

Lemma predict_one_sentinel_witness :
  exists s, c3_state = Ok s
  /\ ((fst (predict_one s [("f", 3.5)]) = Ok None <-> (size c3_window < n_neighbors (model s))%nat)
      /\ ((n_neighbors (model s) <= size c3_window)%nat ->
          exists v, fst (predict_one s [("f", 3.5)]) = Ok (Some v))).
Proof.
  eexists. split; [vm_compute; reflexivity|].
  apply predict_one_sentinel; [simpl; lia | vm_compute; reflexivity].
Defined.

(** ** C4 *)

(** C4 (amended): with the weighted mean, [k >= 2] retrieved neighbours
    and a nonzero distance sum, [predict_one] returns the specification's
    weighted mean: weights [1 - d_i / sum_j d_j] renormalised to sum 1,
    applied to the neighbours' targets; for distances 1 and 3 the weights
    are 0.75 and 0.25. *)
Theorem weighted_mean_prediction (s : state) (x : features) (w : window)
    (dists : list Q) (idx : list nat) :
  aggregation_method (model s) = "weighted_mean" ->
  data_window (model s) = Some w ->
  (2 <= n_neighbors (model s))%nat -> (n_neighbors (model s) <= size w)%nat ->
  get_neighbors (model s) w (fst (dict2numpy (reg s) x)) = (dists, idx) ->
  ~ Qsum dists == 0 ->
  (exists q, fst (predict_one s x) = Ok (Some (F q))
     /\ q == spec_weighted_mean dists (map (fun i => nth i (targets_buffer w) 0) idx))
  /\ (forall t1 t2, spec_weighted_mean [1; 3] [t1; t2] == (3 # 4) * t1 + (1 # 4) * t2
      /\ exists q, weighted_mean [1; 3] [t1; t2] = Ok (F q) /\ q == (3 # 4) * t1 + (1 # 4) * t2).
Proof.
  intros Hm Hw Hk Hn G HS.
  assert (Hspec : forall t1 t2,
            spec_weighted_mean [1; 3] [t1; t2] == (3 # 4) * t1 + (1 # 4) * t2).
  { intros t1 t2. unfold spec_weighted_mean, Qsum. simpl. field. }
  split.
  - destruct (get_neighbors_shape _ _ _ _ _ G Hn) as [Hld [Hli _]].
    rewrite (predict_one_values s x w dists idx Hw Hn G).
    unfold aggregate. rewrite Hm. simpl.
    destruct (weighted_mean_refines dists (map (fun i => nth i (targets_buffer w) 0) idx))
      as [q [Hq Heq]]; [rewrite length_map; lia | lia | exact HS |].
    rewrite Hq. exists q. split; [reflexivity | exact Heq].
  - intros t1 t2. split; [apply Hspec|].
    destruct (weighted_mean_refines [1; 3] [t1; t2]) as [q [Hq Heq]];
      [reflexivity | simpl; lia | unfold Qsum; simpl; discriminate |].
    exists q. split; [exact Hq|]. rewrite Heq. apply Hspec.
Qed.

Lemma weighted_mean_prediction_witness :
  exists s, knn_two_weighted = Ok s
  /\ ((exists q, fst (predict_one s [("f", 1)]) = Ok (Some (F q))
        /\ q == spec_weighted_mean [1; 3] (map (fun i => nth i (targets_buffer (mk_window 3 [([0], 10); ([4], 50)])) 0) [0%nat; 1%nat]))
      /\ (forall t1 t2, spec_weighted_mean [1; 3] [t1; t2] == (3 # 4) * t1 + (1 # 4) * t2
          /\ exists q, weighted_mean [1; 3] [t1; t2] = Ok (F q) /\ q == (3 # 4) * t1 + (1 # 4) * t2)).
Proof.
  eexists. split; [vm_compute; reflexivity|].
  apply weighted_mean_prediction; vm_compute; try reflexivity; discriminate.
Defined.

Lemma weighted_mean_one_nan (d t : Q) : ~ d == 0 -> weighted_mean [d] [t] = Ok NaN.
Proof.
  intros Hd. unfold weighted_mean. cbn [map fsum fold_right fadd].
  rewrite fdiv_F_nonzero by (rewrite Qplus_0_r; exact Hd).
  cbn [map fsub fsum fold_right fadd].
  assert (E : Qeq_bool (1 - d / (d + 0) + 0) 0 = true).
  { apply Qeq_bool_iff. rewrite Qplus_0_r. field. exact Hd. }
  assert (E' : (1 - d / (d + 0) ?= 0) = Eq).
  { apply Qeq_alt. rewrite Qplus_0_r. field. exact Hd. }
  unfold fdiv at 1. rewrite E. unfold qsign. rewrite E'. reflexivity.
Qed.

(** C4 fails for a single neighbour: its only weight [1 - d/d] is 0, so
    the renormalisation [weights /= weights.sum()] divides by a zero sum.
    For any nonzero distance and any target the aggregation of lines
    147-153 gives not-a-number, not a weighted mean of the target; and a
    one-neighbour regressor (with the neighbour query returning one
    distance and one index) does not predict its neighbour's target 10. *)
Lemma weighted_mean_single_neighbour_nan :
  (forall d t, ~ d == 0 -> weighted_mean [d] [t] = Ok NaN /\ weighted_mean [d] [t] <> Ok (F t))
  /\ exists s, knn_one_weighted = Ok s
  /\ get_neighbors (model s) (mk_window 3 [([0], 10)]) [1] = ([1], [0%nat])
  /\ fst (predict_one s [("f", 1)]) = Ok (Some NaN)
  /\ fst (predict_one s [("f", 1)]) <> Ok (Some (F 10)).
Proof.
  split.
  { intros d t Hd. rewrite (weighted_mean_one_nan d t Hd). split; [reflexivity | discriminate]. }
  eexists. split; [vm_compute; reflexivity|].
  split; [vm_compute; reflexivity|]. split; [vm_compute; reflexivity|].
  vm_compute. discriminate.
Qed.

(** ** C8 *)

(** C8: with the weighted mean and retrieved distances summing to zero,
    [predict_one] returns not-a-number as its result: no exception, and
    no finite value, so no fallback to uniform weights. *)
Theorem weighted_mean_degenerate_nan (s : state) (x : features) (w : window)
    (dists : list Q) (idx : list nat) :
  aggregation_method (model s) = "weighted_mean" ->
  data_window (model s) = Some w ->
  (1 <= n_neighbors (model s))%nat -> (n_neighbors (model s) <= size w)%nat ->
  get_neighbors (model s) w (fst (dict2numpy (reg s) x)) = (dists, idx) ->
  Qsum dists == 0 ->
  fst (predict_one s x) = Ok (Some NaN)
  /\ forall q, fst (predict_one s x) <> Ok (Some (F q)).
Proof.
  intros Hm Hw Hk Hn G HS.
  destruct (get_neighbors_shape _ _ _ _ _ G Hn) as [Hld [Hli [Hnn _]]].
  assert (H : fst (predict_one s x) = Ok (Some NaN)).
  { rewrite (predict_one_values s x w dists idx Hw Hn G).
    unfold aggregate. rewrite Hm. simpl.
    destruct dists as [|d0 ds]; [simpl in Hld; lia|].
    destruct idx as [|i0 is]; [simpl in Hli; lia|].
    cbn [map]. rewrite weighted_mean_zero; [reflexivity | exact HS |].
    exact (Qsum_zero_head d0 ds Hnn HS). }
  split; [exact H|]. intros q. rewrite H. discriminate.
Qed.

Lemma weighted_mean_degenerate_nan_witness :
  exists s, knn_one_weighted = Ok s
  /\ (fst (predict_one s [("f", 0)]) = Ok (Some NaN)
      /\ forall q, fst (predict_one s [("f", 0)]) <> Ok (Some (F q))).
Proof.
  eexists. split; [vm_compute; reflexivity|].
  apply (weighted_mean_degenerate_nan _ _ (mk_window 3 [([0], 10)]) [0] [0%nat]);
    vm_compute; try reflexivity; discriminate.
Defined.

Lemma window_capacity_invariant_witness :
  KNNRegressor_init 2 3 30 2 "mean" = Ok (mk_knn 2 3 30 2 "mean" (Some (mk_window 3 [])))
  /\ exists s', learn_many (mk_state (mk_knn 2 3 30 2 "mean" (Some (mk_window 3 []))) []) c3_samples = Ok s'
     /\ exists w, data_window (model s') = Some w
        /\ (size w <= 3)%nat /\ size w = Nat.min (length c3_samples) 3.
Proof.
  split; [reflexivity|].
  apply (window_capacity_invariant 2 3 30 2 "mean"). reflexivity.
Defined.

(** * Further properties of the sources *)

(** ** compose *)

Lemma compose_all_rev {A} (fs : list (A -> A)) : forall (g : A -> A) (x : A),
  fold_left compose2 (rev fs) g x = g (fold_left (fun acc f => f acc) fs x).
Proof.
  induction fs as [|f fs IH]; intros g x; [reflexivity|].
  simpl. rewrite fold_left_app. simpl. unfold compose2 at 1. apply IH.
Qed.

(** [compose(f1, ..., fn)] applies [f1] first and [fn] last; the
    docstring's [compose(f, g, h)(10)] is -22. *)
Theorem compose_applies_left_to_right :
  (forall (A : Type) (fs : list (A -> A)) (x : A),
     compose_all fs x = fold_left (fun acc f => f acc) fs x)
  /\ compose_all [fun x => x + 1; fun x => x * 2; fun x => - x]%Z 10%Z = (-22)%Z.
Proof.
  split; [|reflexivity].
  intros A fs x. unfold compose_all. exact (compose_all_rev fs (fun y => y) x).
Qed.

(** ** Counter *)

Lemma counter_get_add (c : counter) (w w' : string) :
  counter_get (counter_add c w) w' = (counter_get c w' + if String.eqb w w' then 1 else 0)%nat.
Proof.
  induction c as [|[k m] t IH]; simpl.
  - destruct (String.eqb w w'); reflexivity.
  - destruct (String.eqb_spec k w) as [->|Hkw]; simpl.
    + destruct (String.eqb w w'); lia.
    + rewrite IH. destruct (String.eqb_spec k w') as [->|]; [|reflexivity].
      destruct (String.eqb_spec w w'); [congruence | lia].
Qed.

Lemma counter_add_keys (c : counter) (w k : string) :
  In k (map fst (counter_add c w)) <-> In k (map fst c) \/ k = w.
Proof.
  induction c as [|[k' m] t IH]; simpl.
  - split; [intros [H|[]]; right; congruence | intros [[]|H]; left; congruence].
  - destruct (String.eqb_spec k' w) as [->|Hkw]; simpl.
    + split; [tauto|]. intros [H|H]; [exact H | left; congruence].
    + rewrite IH. tauto.
Qed.

Lemma counter_add_nodup (c : counter) (w : string) :
  NoDup (map fst c) -> NoDup (map fst (counter_add c w)).
Proof.
  induction c as [|[k' m] t IH]; intros H; simpl.
  - constructor; [intros []| constructor].
  - inversion H; subst.
    destruct (String.eqb_spec k' w) as [->|Hkw]; simpl; [exact H|].
    constructor; [|apply IH; assumption].
    rewrite counter_add_keys. intros [Hin | Heq]; [contradiction | congruence].
Qed.

Lemma counter_add_total (c : counter) (w : string) :
  fold_right (fun e acc => (snd e + acc)%nat) 0%nat (counter_add c w)
  = S (fold_right (fun e acc => (snd e + acc)%nat) 0%nat c).
Proof.
  induction c as [|[k m] t IH]; simpl; [reflexivity|].
  destruct (String.eqb k w); simpl; [lia|]. rewrite IH. lia.
Qed.

Lemma counter_add_pos (c : counter) (w : string) :
  Forall (fun e => (1 <= snd e)%nat) c -> Forall (fun e => (1 <= snd e)%nat) (counter_add c w).
Proof.
  induction 1 as [|[k m] t Hm Ht IH]; simpl.
  - constructor; [simpl; lia | constructor].
  - destruct (String.eqb k w); constructor; simpl in *; auto; lia.
Qed.

Lemma Counter_fold (ws : list string) : forall c,
  NoDup (map fst c) -> Forall (fun e => (1 <= snd e)%nat) c ->
  let c' := fold_left counter_add ws c in
  NoDup (map fst c') /\ Forall (fun e => (1 <= snd e)%nat) c'
  /\ (forall w, counter_get c' w = counter_get c w + count_occ string_dec ws w)%nat
  /\ (forall k, In k (map fst c') <-> In k (map fst c) \/ In k ws)
  /\ fold_right (fun e acc => (snd e + acc)%nat) 0%nat c'
     = (fold_right (fun e acc => (snd e + acc)%nat) 0%nat c + length ws)%nat.
Proof.
  induction ws as [|a ws IH]; intros c Hnd Hpos; simpl.
  - repeat split; auto; intros; try lia; tauto.
  - destruct (IH (counter_add c a) (counter_add_nodup c a Hnd) (counter_add_pos c a Hpos))
      as [H1 [H2 [H3 [H4 H5]]]].
    repeat split; auto.
    + intros w. rewrite H3, counter_get_add.
      destruct (String.eqb_spec a w); destruct (string_dec a w); try congruence; lia.
    + intros Hk. apply H4 in Hk. rewrite counter_add_keys in Hk.
      destruct Hk as [[Hk | Hk] | Hk]; [left; exact Hk | right; left; congruence | right; right; exact Hk].
    + intros Hk. apply H4. rewrite counter_add_keys.
      destruct Hk as [Hk | [Hk | Hk]]; [left; left; exact Hk | left; right; congruence | right; exact Hk].
    + rewrite H5, counter_add_total. lia.
Qed.

(** [CountVectorizer.transform_one] counts tokens: its keys are distinct,
    each count is at least 1 and equals the number of occurrences of the
    key among the tokens ([Counter[w]] is 0 for any other word), and the
    counts add up to the number of tokens. *)
Theorem transform_one_counts (v : CountVectorizer) (x : text_input) (c : counter) :
  fst (transform_one v x) = Ok c ->
  exists t, _get_text v x = Ok t
  /\ NoDup (map fst c) /\ Forall (fun e => (1 <= snd e)%nat) c
  /\ (forall w, counter_get c w = count_occ string_dec (tokenizer v (preprocessor v t)) w)
  /\ (forall k, In k (map fst c) <-> In k (tokenizer v (preprocessor v t)))
  /\ n_terms_of c = length (tokenizer v (preprocessor v t)).
Proof.
  unfold transform_one. simpl. destruct (_get_text v x) as [t|e]; simpl; [|discriminate].
  intros H. inversion H; subst c. exists t. split; [reflexivity|].
  destruct (Counter_fold (tokenizer v (preprocessor v t)) [] (NoDup_nil _) (Forall_nil _))
    as [H1 [H2 [H3 [H4 H5]]]].
  unfold Counter. repeat split; auto.
  - intros Hk. apply H4 in Hk. destruct Hk as [[]|Hk]; exact Hk.
  - intros Hk. apply H4. right. exact Hk.
Qed.

Lemma transform_one_counts_witness :
  fst (transform_one (CountVectorizer_init None true true None None) (TStr "a rose is a rose"))
    = Ok [("rose", 2%nat); ("is", 1%nat)]
  /\ exists t, _get_text (CountVectorizer_init None true true None None) (TStr "a rose is a rose") = Ok t
  /\ NoDup (map fst [("rose", 2%nat); ("is", 1%nat)])
  /\ Forall (fun e => (1 <= snd e)%nat) [("rose", 2%nat); ("is", 1%nat)]
  /\ (forall w, counter_get [("rose", 2%nat); ("is", 1%nat)] w
        = count_occ string_dec (tokenizer (CountVectorizer_init None true true None None)
             (preprocessor (CountVectorizer_init None true true None None) t)) w)
  /\ (forall k, In k (map fst [("rose", 2%nat); ("is", 1%nat)])
        <-> In k (tokenizer (CountVectorizer_init None true true None None)
             (preprocessor (CountVectorizer_init None true true None None) t)))
  /\ n_terms_of [("rose", 2%nat); ("is", 1%nat)]
     = length (tokenizer (CountVectorizer_init None true true None None)
             (preprocessor (CountVectorizer_init None true true None None) t)).
Proof.
  split; [vm_compute; reflexivity|].
  apply transform_one_counts. vm_compute. reflexivity.
Defined.

(** ** The default preprocessor and tokenizer *)

Lemma str_all_app (P : ascii -> bool) (a b : string) :
  str_all P (a ++ b) = str_all P a && str_all P b.
Proof.
  induction a as [|c a IH]; simpl; [reflexivity|]. rewrite IH, andb_assoc. reflexivity.
Qed.

Lemma lower_not_upper (c : ascii) : is_upper (lower_ascii c) = false.
Proof.
  unfold lower_ascii.
  destruct (Nat.leb 65 (nat_of_ascii c) && Nat.leb (nat_of_ascii c) 90) eqn:E.
  - apply andb_prop in E as [E0 E]. apply Nat.leb_le in E. apply Nat.leb_le in E0.
    unfold is_upper. rewrite nat_ascii_embedding by lia.
    destruct (Nat.leb (nat_of_ascii c + 32) 90) eqn:F; [apply Nat.leb_le in F; lia|].
    apply andb_false_r.
  - exact E.
Qed.

Lemma str_lower_no_upper (s : string) :
  str_all (fun ch => negb (is_upper ch)) (str_lower s) = true.
Proof.
  induction s as [|c s IH]; simpl; [reflexivity|]. rewrite lower_not_upper, IH. reflexivity.
Qed.

Lemma word_runs_all (Qc : ascii -> bool) (s : string) : forall cur,
  str_all (fun ch => is_word ch && Qc ch) cur = true -> str_all Qc s = true ->
  Forall (fun w => str_all (fun ch => is_word ch && Qc ch) w = true) (word_runs s cur).
Proof.
  induction s as [|c t IH]; intros cur Hc Hs; simpl in *.
  - constructor; [exact Hc | constructor].
  - apply andb_prop in Hs as [Hq Ht].
    destruct (is_word c) eqn:W.
    + apply IH; [|exact Ht]. rewrite str_all_app, Hc. simpl. rewrite W, Hq. reflexivity.
    + constructor; [exact Hc|]. apply IH; [reflexivity | exact Ht].
Qed.

Lemma build_preprocessor_lower (sa : bool) (s : string) :
  build_preprocessor sa true s = str_lower s.
Proof. destruct sa; reflexivity. Qed.

Lemma Counter_keys (ws : list string) (k : string) :
  In k (map fst (Counter ws)) <-> In k ws.
Proof.
  destruct (Counter_fold ws [] (NoDup_nil _) (Forall_nil _)) as [_ [_ [_ [H4 _]]]].
  unfold Counter. rewrite H4. simpl. tauto.
Qed.

Lemma Counter_nodup (ws : list string) : NoDup (map fst (Counter ws)).
Proof. apply (Counter_fold ws [] (NoDup_nil _) (Forall_nil _)). Qed.

(** On ASCII text, with the default tokenizer and lowercasing on, every
    counted token has at least two characters, all of them word characters,
    none of them an uppercase letter; [transform_one] on a [str] never
    fails. *)
Theorem default_tokens_lowercase_words (sa : bool) (s : string) :
  is_ascii_str s = true ->
  exists c, fst (transform_one (CountVectorizer_init None sa true None None) (TStr s)) = Ok c
  /\ Forall (fun e => (2 <= String.length (fst e))%nat
             /\ str_all (fun ch => is_word ch && negb (is_upper ch)) (fst e) = true) c.
Proof.
  intros _. eexists. split; [reflexivity|].
  simpl. rewrite build_preprocessor_lower.
  apply Forall_forall. intros [k m] Hin. simpl.
  apply (in_map fst) in Hin. simpl in Hin.
  apply (proj1 (Counter_keys _ _)) in Hin. unfold build_tokenizer in Hin.
  apply filter_In in Hin as [Hin Hlen]. apply Nat.leb_le in Hlen.
  split; [exact Hlen|].
  pose proof (word_runs_all (fun ch => negb (is_upper ch)) (str_lower s) EmptyString
                eq_refl (str_lower_no_upper s)) as H.
  rewrite Forall_forall in H. exact (H k Hin).
Qed.

Lemma default_tokens_lowercase_words_witness :
  is_ascii_str "A Rose is a ROSE" = true
  /\ exists c, fst (transform_one (CountVectorizer_init None false true None None) (TStr "A Rose is a ROSE")) = Ok c
  /\ Forall (fun e => (2 <= String.length (fst e))%nat
             /\ str_all (fun ch => is_word ch && negb (is_upper ch)) (fst e) = true) c.
Proof.
  split; [vm_compute; reflexivity|].
  apply (default_tokens_lowercase_words false "A Rose is a ROSE"). vm_compute. reflexivity.
Defined.

(** ** Input shapes of [_get_text] *)


(** ** TFIDFVectorizer: the document-frequency store *)

Lemma dfs_lookup_app (d e : dfs_t) (t : string) :
  dfs_lookup (d ++ e) t = match dfs_lookup d t with Some v => Some v | None => dfs_lookup e t end.
Proof.
  induction d as [|[k x] r IH]; simpl; [reflexivity|]. destruct (String.eqb k t); auto.
Qed.

Lemma dfs_val_set (d : dfs_t) (t t' : string) (x : nat) :
  dfs_val (dfs_set d t x) t' = if String.eqb t t' then x else dfs_val d t'.
Proof.
  unfold dfs_val. induction d as [|[k y] r IH]; simpl.
  - destruct (String.eqb t t'); reflexivity.
  - destruct (String.eqb_spec k t) as [->|Hkt]; simpl.
    + destruct (String.eqb t t'); reflexivity.
    + destruct (String.eqb_spec k t') as [->|Hkt']; [|exact IH].
      destruct (String.eqb_spec t t'); [congruence | reflexivity].
Qed.

Lemma dfs_getitem_val (d : dfs_t) (t : string) :
  fst (dfs_getitem d t) = dfs_val d t
  /\ forall t', dfs_val (snd (dfs_getitem d t)) t' = dfs_val d t'.
Proof.
  unfold dfs_getitem, dfs_val. destruct (dfs_lookup d t) eqn:E; simpl; split; auto.
  intros t'. rewrite dfs_lookup_app. destruct (dfs_lookup d t'); [reflexivity|]. simpl.
  destruct (String.eqb t t'); reflexivity.
Qed.

Lemma dfs_val_incr (d : dfs_t) (t t' : string) :
  dfs_val (dfs_incr d t) t' = if String.eqb t t' then S (dfs_val d t) else dfs_val d t'.
Proof.
  unfold dfs_incr. destruct (dfs_getitem_val d t) as [H1 H2].
  destruct (dfs_getitem d t) as [x d'] eqn:E. simpl in H1, H2.
  rewrite dfs_val_set. destruct (String.eqb t t'); [congruence | apply H2].
Qed.

Lemma dfs_incr_keys (c : counter) : forall d, NoDup (map fst c) -> forall t,
  dfs_val (fold_left (fun d e => dfs_incr d (fst e)) c d) t
  = (dfs_val d t + if in_dec string_dec t (map fst c) then 1 else 0)%nat.
Proof.
  induction c as [|[k m] r IH]; intros d Hnd t; simpl.
  - lia.
  - inversion Hnd as [|? ? Hk Hr]; subst.
    rewrite (IH _ Hr), dfs_val_incr.
    destruct (String.eqb_spec k t) as [->|Hkt].
    + destruct (in_dec string_dec t (map fst r)); [contradiction|].
      destruct (string_dec t t); [lia | congruence].
    + destruct (string_dec k t); [congruence|].
      destruct (in_dec string_dec t (map fst r)); destruct (in_dec string_dec t (k :: map fst r));
        simpl in *; try lia; intuition congruence.
Qed.

Lemma tfidf_loop_dfs (log : Q -> Q) (nd nt : nat) (tc : counter) : forall acc d t,
  dfs_val (snd (tfidf_loop log nd nt tc acc d)) t = dfs_val d t.
Proof.
  induction tc as [|[term count] rest IH]; intros acc d t; simpl; [reflexivity|].
  destruct (Nat.eqb nt 0); [reflexivity|].
  destruct (dfs_getitem_val d term) as [_ H2].
  destruct (dfs_getitem d term) as [df d'] eqn:E. simpl in H2.
  rewrite IH. apply H2.
Qed.

Lemma compute_tfidfs_dfs (log sqrt : Q -> Q) (v : TFIDFVectorizer) (tc : counter) (t : string) :
  dfs_val (snd (compute_tfidfs log sqrt v tc)) t = dfs_val (dfs v) t.
Proof.
  unfold compute_tfidfs.
  pose proof (tfidf_loop_dfs log (n v) (n_terms_of tc) tc [] (dfs v) t) as H.
  destruct (tfidf_loop log (n v) (n_terms_of tc) tc [] (dfs v)) as [r d].
  simpl in H. destruct r as [tfidfs|e]; [destruct (normalize v)|]; exact H.
Qed.

Lemma tfidf_transform_one_state (log sqrt : Q -> Q) (v : TFIDFVectorizer) (x : text_input) :
  let v' := snd (tfidf_transform_one log sqrt v x) in
  mixin v' = mixin v /\ normalize v' = normalize v /\ tfs v' = tfs v /\ n v' = n v
  /\ forall t, dfs_val (dfs v') t = dfs_val (dfs v) t.
Proof.
  unfold tfidf_transform_one.
  destruct (_get_text (mixin v) x) as [text|e]; [|simpl; repeat split; auto].
  destruct (fst (transform_one (tfs v) (TStr text))) as [tc|e]; [|simpl; repeat split; auto].
  pose proof (compute_tfidfs_dfs log sqrt v tc) as H.
  destruct (compute_tfidfs log sqrt v tc) as [r d]. simpl in *. repeat split; auto.
Qed.

Lemma transform_one_ok_inv (w : CountVectorizer) (x : text_input) (c : counter) :
  fst (transform_one w x) = Ok c ->
  exists t, _get_text w x = Ok t /\ c = Counter (tokenizer w (preprocessor w t)).
Proof.
  unfold transform_one. simpl. destruct (_get_text w x) as [t|e]; simpl; [|discriminate].
  intros H. inversion H. exists t. split; reflexivity.
Qed.

Lemma tfidf_fit_one_state (v : TFIDFVectorizer) (x : text_input) :
  (exists e, fst (tfidf_fit_one v x) = Err e /\ snd (tfidf_fit_one v x) = v)
  \/ (fst (tfidf_fit_one v x) = Ok tt
      /\ exists text, _get_text (mixin v) x = Ok text
      /\ mixin (snd (tfidf_fit_one v x)) = mixin v
      /\ normalize (snd (tfidf_fit_one v x)) = normalize v
      /\ tfs (snd (tfidf_fit_one v x)) = tfs v
      /\ n (snd (tfidf_fit_one v x)) = S (n v)
      /\ forall t, dfs_val (dfs (snd (tfidf_fit_one v x))) t
         = (dfs_val (dfs v) t
            + if in_dec string_dec t (tokenizer (tfs v) (preprocessor (tfs v) text)) then 1 else 0)%nat).
Proof.
  unfold tfidf_fit_one, Transformer_fit_one.
  destruct (_get_text (mixin v) x) as [text|e] eqn:Eg; [|left; exists e; destruct v; split; reflexivity].
  destruct (fst (transform_one (tfs v) (TStr text))) as [tc|e] eqn:Et;
    [|left; exists e; destruct v; split; reflexivity].
  right. split; [reflexivity|]. exists text. split; [reflexivity|]. simpl.
  repeat split; auto. intros t.
  destruct (transform_one_ok_inv _ _ _ Et) as [t' [Ht' ->]].
  destruct (tfs v) as [o sa lc pre tok] eqn:Ev. simpl in Ht' |- *.
  destruct o; simpl in Ht'; [discriminate|]. inversion Ht'; subst t'.
  rewrite dfs_incr_keys by apply Counter_nodup.
  destruct (in_dec string_dec t (map fst (Counter (tok (pre text)))));
    destruct (in_dec string_dec t (tok (pre text))); try reflexivity;
    exfalso; [apply n0 | apply n0]; apply Counter_keys; assumption.
Qed.

Definition dfs_bounded (v : TFIDFVectorizer) : Prop :=
  forall t, (dfs_val (dfs v) t <= n v)%nat.

Lemma tfidf_run_bounded (log sqrt : Q -> Q) (calls : list tfidf_call) : forall v,
  dfs_bounded v -> dfs_bounded (tfidf_run log sqrt v calls).
Proof.
  induction calls as [|[x|x] rest IH]; intros v Hv; simpl; [exact Hv| |].
  - apply IH. intros t.
    destruct (tfidf_fit_one_state v x) as [[e [_ ->]] | [_ [text [_ [_ [_ [_ [Hn Hd]]]]]]]];
      [apply Hv|].
    rewrite Hn, Hd. specialize (Hv t). destruct (in_dec _ _ _); lia.
  - apply IH. intros t.
    destruct (tfidf_transform_one_state log sqrt v x) as [_ [_ [_ [Hn Hd]]]].
    rewrite Hn, Hd. apply Hv.
Qed.

(** Whatever calls are made from a fresh [TFIDFVectorizer], no term's
    document frequency exceeds the number of documents seen. *)
Theorem tfidf_df_le_n (log sqrt : Q -> Q) (on : option string) (sa lc : bool)
    (pre : option (string -> string)) (tok : option (string -> list string)) (nrm : bool)
    (calls : list tfidf_call) (t : string) :
  let v := tfidf_run log sqrt (TFIDFVectorizer_init on sa lc pre tok nrm) calls in
  (dfs_val (dfs v) t <= n v)%nat.
Proof.
  apply tfidf_run_bounded. intros t'. unfold dfs_val. simpl. lia.
Qed.

(** [transform_one] changes no document count: [n] and every document
    frequency read are the same afterwards (it only inserts zero entries
    into the [defaultdict]), and the other attributes are untouched. *)
Theorem tfidf_transform_one_keeps_counts (log sqrt : Q -> Q) (v : TFIDFVectorizer)
    (x : text_input) :
  let v' := snd (tfidf_transform_one log sqrt v x) in
  mixin v' = mixin v /\ normalize v' = normalize v /\ tfs v' = tfs v /\ n v' = n v
  /\ forall t, dfs_val (dfs v') t = dfs_val (dfs v) t.
Proof. apply tfidf_transform_one_state. Qed.

(** A successful [fit_one] counts one more document and raises the
    document frequency of each of its distinct terms by exactly one, however
    often the term occurs; a failing one leaves the vectorizer as it was. *)
Theorem tfidf_fit_one_document_frequency (v : TFIDFVectorizer) (x : text_input) :
  (exists e, fst (tfidf_fit_one v x) = Err e /\ snd (tfidf_fit_one v x) = v)
  \/ (fst (tfidf_fit_one v x) = Ok tt
      /\ exists text, _get_text (mixin v) x = Ok text
      /\ n (snd (tfidf_fit_one v x)) = S (n v)
      /\ forall t, dfs_val (dfs (snd (tfidf_fit_one v x))) t
         = (dfs_val (dfs v) t
            + if in_dec string_dec t (tokenizer (tfs v) (preprocessor (tfs v) text)) then 1 else 0)%nat).
Proof.
  destruct (tfidf_fit_one_state v x) as [H | [H [text [H1 [_ [_ [_ [H2 H3]]]]]]]];
    [left; exact H | right; split; [exact H|]].
  exists text. auto.
Qed.

(** ** TFIDFVectorizer: results *)

(** With [on] set, the mixin hands the inner [CountVectorizer] a [str],
    which it indexes by [on] again: [fit_one] and [transform_one] raise on
    every input and leave the vectorizer as it was. *)
Theorem tfidf_on_always_fails (log sqrt : Q -> Q) (k : string) (sa lc : bool)
    (pre : option (string -> string)) (tok : option (string -> list string)) (nrm : bool)
    (x : text_input) :
  let v := TFIDFVectorizer_init (Some k) sa lc pre tok nrm in
  (exists e, tfidf_fit_one v x = (Err e, v))
  /\ (exists e, tfidf_transform_one log sqrt v x = (Err e, v)).
Proof.
  cbv zeta. destruct x as [s|d]; [split; eexists; reflexivity|].
  unfold tfidf_fit_one, tfidf_transform_one, _get_text. simpl.
  destruct (text_get d k); split; eexists; reflexivity.
Qed.

(** A document without tokens transforms to the empty [dict], with or
    without normalization, and the vectorizer is unchanged. *)
Theorem tfidf_transform_one_no_tokens (log sqrt : Q -> Q) (v : TFIDFVectorizer) (s : string) :
  on (mixin v) = None -> on (tfs v) = None ->
  tokenizer (tfs v) (preprocessor (tfs v) s) = [] ->
  tfidf_transform_one log sqrt v (TStr s) = (Ok [], v).
Proof.
  intros H1 H2 H3. unfold tfidf_transform_one, _get_text. rewrite H1.
  unfold transform_one, _get_text. rewrite H2. simpl. rewrite H3. simpl.
  unfold compute_tfidfs. simpl. destruct (normalize v); destruct v; reflexivity.
Qed.

Lemma tfidf_transform_one_no_tokens_witness :
  let v := TFIDFVectorizer_init None true true None None true in
  (on (mixin v) = None /\ on (tfs v) = None
   /\ tokenizer (tfs v) (preprocessor (tfs v) "a b c") = [])
  /\ tfidf_transform_one (fun q => q) (fun q => q) v (TStr "a b c") = (Ok [], v).
Proof.
  cbv zeta. split; [split; [reflexivity | split; vm_compute; reflexivity]|].
  apply tfidf_transform_one_no_tokens; [reflexivity | reflexivity | vm_compute; reflexivity].
Defined.

Lemma inject_nat_le (a b : nat) : (a <= b)%nat -> inject_nat a <= inject_nat b.
Proof. intros H. unfold inject_nat. rewrite <- Zle_Qle. lia. Qed.

Lemma inject_nat_pos (a : nat) : (1 <= a)%nat -> 0 < inject_nat a.
Proof. intros H. unfold inject_nat. change 0 with (inject_Z 0). rewrite <- Zlt_Qlt. lia. Qed.

Lemma dict_set_q_pos (acc : list (string * Q)) (t : string) (x : Q) :
  Forall (fun e => 0 < snd e) acc -> 0 < x -> Forall (fun e => 0 < snd e) (dict_set_q acc t x).
Proof.
  intros Ha Hx. induction Ha as [|[k y] r Hy Hr IH]; simpl.
  - constructor; [exact Hx | constructor].
  - destruct (String.eqb k t); constructor; auto.
Qed.

Lemma tfidf_loop_pos (log : Q -> Q) (Hlog : forall q, 1 <= q -> 0 <= log q) (nd nt : nat)
    (tc : counter) : forall acc d r d',
  (forall t, (dfs_val d t <= nd)%nat) -> Forall (fun e => (1 <= snd e)%nat) tc ->
  Forall (fun e => 0 < snd e) acc ->
  tfidf_loop log nd nt tc acc d = (Ok r, d') -> Forall (fun e => 0 < snd e) r.
Proof.
  induction tc as [|[term count] rest IH]; intros acc d r d' Hd Hc Ha H; simpl in H.
  - inversion H; subst. exact Ha.
  - destruct (Nat.eqb_spec nt 0); [discriminate|].
    destruct (dfs_getitem_val d term) as [H1 H2].
    destruct (dfs_getitem d term) as [df d1] eqn:E. simpl in H1, H2.
    inversion Hc as [|? ? Hcount Hrest]. simpl in Hcount.
    eapply IH; [| exact Hrest | | exact H].
    + intros t. rewrite H2. apply Hd.
    + apply dict_set_q_pos; [exact Ha|].
      apply Qmult_lt_0_compat.
      * apply Qlt_shift_div_l; [apply inject_nat_pos; lia|].
        pose proof (inject_nat_pos count Hcount). lra.
      * assert (Hdf : inject_nat df <= inject_nat nd) by (apply inject_nat_le; rewrite H1; apply Hd).
        assert (Hdf0 : 0 <= inject_nat df) by (apply (inject_nat_le 0); lia).
        assert (1 <= (1 + inject_nat nd) / (1 + inject_nat df)) as Hq.
        { apply Qle_shift_div_l; lra. }
        pose proof (Hlog _ Hq). lra.
Qed.

Lemma map_result_ok_map {A B} (g : A -> B) (l : list A) :
  map_result (fun e => Ok (g e)) l = Ok (map g l).
Proof. induction l as [|a l IH]; simpl; [reflexivity|]. rewrite IH. reflexivity. Qed.

Lemma Qsum_sq_pos (l : list (string * Q)) :
  Forall (fun e => 0 < snd e) l -> l <> [] -> 0 < Qsum (map (fun e => snd e * snd e) l).
Proof.
  intros H Hne. destruct H as [|e l He Hl]; [contradiction|]. simpl map. rewrite Qsum_cons.
  assert (0 <= Qsum (map (fun e => snd e * snd e) l)).
  { apply Qsum_nonneg. rewrite Forall_forall in Hl |- *. intros q Hq.
    apply in_map_iff in Hq as [e' [<- He']]. apply Qlt_le_weak, Qmult_lt_0_compat; apply Hl; exact He'. }
  pose proof (Qmult_lt_0_compat _ _ He He). lra.
Qed.

Lemma tfidf_transform_one_pos (log sqrt : Q -> Q) (Hlog : forall q, 1 <= q -> 0 <= log q)
    (Hsqrt : forall q, 0 < q -> 0 < sqrt q) (v : TFIDFVectorizer) (x : text_input)
    (r : list (string * Q)) :
  dfs_bounded v -> fst (tfidf_transform_one log sqrt v x) = Ok r -> Forall (fun e => 0 < snd e) r.
Proof.
  intros Hb. unfold tfidf_transform_one.
  destruct (_get_text (mixin v) x) as [text|e]; [|discriminate].
  destruct (fst (transform_one (tfs v) (TStr text))) as [tc|e] eqn:Et; [|discriminate].
  destruct (transform_one_ok_inv _ _ _ Et) as [t' [_ ->]].
  destruct (Counter_fold (tokenizer (tfs v) (preprocessor (tfs v) t')) [] (NoDup_nil _) (Forall_nil _))
    as [_ [Hc _]].
  unfold compute_tfidfs.
  destruct (tfidf_loop log (n v) _ _ [] (dfs v)) as [res d] eqn:El.
  destruct res as [tfidfs|e]; [|discriminate].
  pose proof (tfidf_loop_pos log Hlog _ _ _ _ _ _ _ Hb Hc (Forall_nil _) El) as Hpos.
  destruct (normalize v); simpl; intros H; [|inversion H; subst; exact Hpos].
  destruct tfidfs as [|e0 rest] eqn:Eq; [inversion H; constructor|].
  rewrite <- Eq in H, Hpos.
  assert (Hn : 0 < sqrt (Qsum (map (fun e => snd e * snd e) tfidfs))).
  { apply Hsqrt, Qsum_sq_pos; [exact Hpos | rewrite Eq; discriminate]. }
  assert (Hb0 : Qeq_bool (sqrt (Qsum (map (fun e => snd e * snd e) tfidfs))) 0 = false).
  { destruct (Qeq_bool _ 0) eqn:E0; [|reflexivity]. apply Qeq_bool_iff in E0. lra. }
  rewrite Hb0, map_result_ok_map in H. inversion H; subst r.
  apply Forall_forall. intros e He. apply in_map_iff in He as [e' [<- He']]. simpl.
  apply Qlt_shift_div_l; [exact Hn|]. rewrite Forall_forall in Hpos. pose proof (Hpos e' He'). lra.
Qed.

(** Given a [math.log] that is nonnegative from 1 on and a [math.sqrt]
    positive on positives, every TF-IDF value a vectorizer returns after any
    calls from a fresh state is positive: a term's document frequency never
    exceeds the document count, so its idf is at least 1. *)
Theorem tfidf_values_positive (log sqrt : Q -> Q) (Hlog : forall q, 1 <= q -> 0 <= log q)
    (Hsqrt : forall q, 0 < q -> 0 < sqrt q) (on : option string) (sa lc : bool)
    (pre : option (string -> string)) (tok : option (string -> list string)) (nrm : bool)
    (calls : list tfidf_call) (x : text_input) (r : list (string * Q)) :
  fst (tfidf_transform_one log sqrt
         (tfidf_run log sqrt (TFIDFVectorizer_init on sa lc pre tok nrm) calls) x) = Ok r ->
  Forall (fun e => 0 < snd e) r.
Proof.
  apply tfidf_transform_one_pos; [exact Hlog | exact Hsqrt|].
  apply tfidf_run_bounded. intros t. unfold dfs_val. simpl. lia.
Qed.

Lemma tfidf_values_positive_witness :
  fst (tfidf_transform_one (fun q => q - 1) (fun q => q)
         (tfidf_run (fun q => q - 1) (fun q => q)
            (TFIDFVectorizer_init None true true None None false) [Fit (TStr "the cat")])
         (TStr "The dog")) = Ok [("the", 2 # 4); ("dog", 2 # 2)]
  /\ Forall (fun e => 0 < snd e) [("the", 2 # 4); ("dog", 2 # 2)].
Proof.
  split; [vm_compute; reflexivity|].
  apply (tfidf_values_positive (fun q => q - 1) (fun q => q)
           (fun q H => proj1 (Qle_minus_iff 1 q) H) (fun q H => H)
           None true true None None false [Fit (TStr "the cat")] (TStr "The dog")).
  vm_compute. reflexivity.
Defined.

(** ** KNNRegressor: the range of the median prediction *)

Lemma np_median_bounds (lo hi q : Q) (vals : list Q) :
  Forall (fun y => lo <= y <= hi) vals -> np_median vals = F q -> lo <= q <= hi.
Proof.
  intros Hb H. unfold np_median in H.
  set (s := sort_by (fun q => q) vals) in *.
  assert (Hs : forall i, (i < length s)%nat -> lo <= nth i s 0 <= hi).
  { intros i Hi. rewrite Forall_forall in Hb. apply Hb.
    apply (Permutation_in _ (sort_by_perm (fun q => q) vals)). apply nth_In. exact Hi. }
  destruct (Nat.eqb_spec (length s) 0) as [|Hn]; [discriminate|].
  assert (Hh : (length s / 2 < length s)%nat) by (apply Nat.div_lt; lia).
  destruct (Nat.odd (length s)); injection H as <-.
  - apply Hs. exact Hh.
  - pose proof (Hs _ Hh). assert (Hh' : (length s / 2 - 1 < length s)%nat) by lia.
    pose proof (Hs _ Hh').
    change (fst (Nat.divmod (length s) 1 0 1)) with (Nat.div (length s) 2).
    split; [apply Qle_shift_div_l | apply Qle_shift_div_r]; try reflexivity; lra.
Qed.

Lemma median_is_not_mean : String.eqb "median" "mean" = false.
Proof. reflexivity. Qed.

(** With the median, a finite prediction lies between the smallest and the
    largest target in the window: it is one of the neighbours' targets, or
    the midpoint of two of them. *)
Theorem predict_one_median_within_targets (s : state) (x : features) (w : window) (lo hi q : Q) :
  aggregation_method (model s) = "median" ->
  data_window (model s) = Some w ->
  Forall (fun y => lo <= y <= hi) (targets_buffer w) ->
  fst (predict_one s x) = Ok (Some (F q)) -> lo <= q <= hi.
Proof.
  intros Ha Hw Hb Hp.
  destruct (Nat.ltb_spec (size w) (n_neighbors (model s))) as [Hlt|Hge].
  - unfold predict_one in Hp. rewrite Hw in Hp.
    assert (E : Nat.ltb (size w) (n_neighbors (model s)) = true) by (apply Nat.ltb_lt; exact Hlt).
    rewrite E in Hp. discriminate.
  - destruct (get_neighbors (model s) w (fst (dict2numpy (reg s) x))) as [dists idx] eqn:G.
    rewrite (predict_one_values s x w dists idx Hw Hge G) in Hp.
    destruct (get_neighbors_shape _ _ _ _ _ G Hge) as [Hld [Hli [Hnn Hidx]]].
    set (vals := map (fun i => nth i (targets_buffer w) 0) idx) in Hp.
    assert (Hv : Forall (fun y => lo <= y <= hi) vals).
    { apply Forall_forall. intros y Hy. unfold vals in Hy.
      apply in_map_iff in Hy as [i [<- Hi]].
      rewrite Forall_forall in Hb, Hidx. apply Hb, nth_In.
      rewrite targets_buffer_length. apply Hidx. exact Hi. }
    unfold aggregate in Hp. rewrite Ha, median_is_not_mean, String.eqb_refl in Hp.
    simpl in Hp. inversion Hp as [Hm].
    apply (np_median_bounds lo hi q vals Hv). exact Hm.
Qed.

Lemma predict_one_median_within_targets_witness :
  let s := mk_state (mk_knn 2 3 30 1 "median" (Some (mk_window 3 [([0], 10); ([4], 50)]))) ["f"] in
  (aggregation_method (model s) = "median"
   /\ data_window (model s) = Some (mk_window 3 [([0], 10); ([4], 50)])
   /\ Forall (fun y => 10 <= y <= 50) (targets_buffer (mk_window 3 [([0], 10); ([4], 50)]))
   /\ fst (predict_one s [("f", 1)]) = Ok (Some (F (60 # 2))))
  /\ 10 <= 60 # 2 <= 50.
Proof.
  cbv zeta.
  assert (Ha : aggregation_method (model (mk_state (mk_knn 2 3 30 1 "median"
                  (Some (mk_window 3 [([0], 10); ([4], 50)]))) ["f"])) = "median") by reflexivity.
  assert (Hw : data_window (model (mk_state (mk_knn 2 3 30 1 "median"
                  (Some (mk_window 3 [([0], 10); ([4], 50)]))) ["f"]))
               = Some (mk_window 3 [([0], 10); ([4], 50)])) by reflexivity.
  assert (Hb : Forall (fun y => 10 <= y <= 50) (targets_buffer (mk_window 3 [([0], 10); ([4], 50)]))).
  { repeat constructor; vm_compute; discriminate. }
  assert (Hp : fst (predict_one (mk_state (mk_knn 2 3 30 1 "median"
                  (Some (mk_window 3 [([0], 10); ([4], 50)]))) ["f"]) [("f", 1)])
               = Ok (Some (F (60 # 2)))) by (vm_compute; reflexivity).
  split; [split; [exact Ha | split; [exact Hw | split; [exact Hb | exact Hp]]]|].
  exact (predict_one_median_within_targets _ _ _ 10 50 _ Ha Hw Hb Hp).
Defined.

(** ** KNNRegressor: the window keeps the latest targets *)

Lemma tl_skipn {A} (k : nat) : forall (l : list A), tl (skipn k l) = skipn (S k) l.
Proof. induction k as [|k IH]; intros [|a l]; simpl; auto. Qed.

Lemma add_one_targets (w : window) (v : list Q) (y : Q) (hist : list Q) :
  targets_buffer w = skipn (length hist - window_size w) hist ->
  targets_buffer (add_one w v y) = skipn (length (hist ++ [y]) - window_size w) (hist ++ [y]).
Proof.
  intros H. unfold add_one, targets_buffer in *. cbn [entries window_size].
  rewrite !length_app. cbn [length].
  assert (Hl : (length (entries w) = length hist - (length hist - window_size w))%nat)
    by (rewrite <- (length_map snd), H, length_skipn; reflexivity).
  destruct (Nat.ltb_spec (window_size w) (length (entries w) + 1)) as [Hlt|Hge].
  - destruct (entries w) as [|e es] eqn:E; cbn [app tl map].
    + cbn [length] in Hl, Hlt. symmetry. apply skipn_all2. rewrite length_app. cbn [length]. lia.
    + cbn [length] in Hl, Hlt. cbn [map] in H. rewrite map_app. cbn [map].
      assert (Hes : map snd es = skipn (S (length hist - window_size w)) hist)
        by (rewrite <- tl_skipn, <- H; reflexivity).
      rewrite Hes, skipn_app, ?length_app. cbn [length snd].
      replace (length hist + 1 - window_size w)%nat with (S (length hist - window_size w)) by lia.
      replace (S (length hist - window_size w) - length hist)%nat with 0%nat by lia.
      reflexivity.
  - replace (length hist - window_size w)%nat with 0%nat in H by lia.
    replace (length hist + 1 - window_size w)%nat with 0%nat by lia.
    rewrite map_app, H. reflexivity.
Qed.

Lemma learn_many_latest (xs : list (features * Q)) : forall m r w hist,
  data_window m = Some w ->
  targets_buffer w = skipn (length hist - window_size w) hist ->
  exists s', learn_many (mk_state m r) xs = Ok s'
  /\ exists w', data_window (model s') = Some w' /\ window_size w' = window_size w
     /\ targets_buffer w' = skipn (length (hist ++ map snd xs) - window_size w) (hist ++ map snd xs).
Proof.
  induction xs as [|[x y] xs IH]; intros m r w hist Hw Ht.
  - exists (mk_state m r). split; [reflexivity|]. exists w. simpl. rewrite app_nil_r. auto.
  - simpl. unfold learn_one. cbn [reg model].
    destruct (dict2numpy r x) as [v r']. rewrite Hw. simpl.
    destruct (IH (set_window m (add_one w v y)) r' (add_one w v y) (hist ++ [y]) eq_refl
                 (add_one_targets w v y hist Ht)) as [s' [Hl [w' [Hw' [Hc' Ht']]]]].
    exists s'. split; [exact Hl|]. exists w'. split; [exact Hw'|]. split; [exact Hc'|].
    rewrite Ht', <- app_assoc. reflexivity.
Qed.

(** From a fresh regressor with capacity [c], [learn_one] never fails and
    after any sequence of samples the window's targets are the last [c]
    targets learnt, oldest first: the oldest entries are the ones evicted. *)
Theorem learn_many_keeps_latest (n c l : nat) (pp : positive) (a : string) (m : KNNRegressor) :
  KNNRegressor_init n c l pp a = Ok m ->
  forall (r : registry) (xs : list (features * Q)),
  exists s', learn_many (mk_state m r) xs = Ok s'
  /\ exists w, data_window (model s') = Some w
     /\ targets_buffer w = skipn (length xs - c) (map snd xs).
Proof.
  intros H r xs. apply KNNRegressor_init_ok in H.
  destruct H as [_ [_ [_ [_ ->]]]].
  destruct (learn_many_latest xs (mk_knn n c l pp a (Some (mk_window c []))) r (mk_window c []) []
              eq_refl eq_refl) as [s' [Hl [w' [Hw' [_ Ht]]]]].
  exists s'. split; [exact Hl|]. exists w'. split; [exact Hw'|].
  rewrite Ht. simpl. rewrite length_map. reflexivity.
Qed.

Lemma learn_many_keeps_latest_witness :
  KNNRegressor_init 2 3 30 2 "mean" = Ok (mk_knn 2 3 30 2 "mean" (Some (mk_window 3 [])))
  /\ exists s', learn_many (mk_state (mk_knn 2 3 30 2 "mean" (Some (mk_window 3 []))) []) c3_samples = Ok s'
  /\ exists w, data_window (model s') = Some w
     /\ targets_buffer w = skipn (length c3_samples - 3) (map snd c3_samples).
Proof.
  split; [reflexivity|].
  apply (learn_many_keeps_latest 2 3 30 2 "mean" _ eq_refl).
Defined.

(** ** KNNRegressor: the median over the whole window *)

Lemma map_fst_combine_seq {A} (l : list A) : forall start,
  map fst (combine (seq start (length l)) l) = seq start (length l).
Proof. induction l as [|a l IH]; intros start; simpl; [reflexivity|]. rewrite IH. reflexivity. Qed.

Lemma map_nth_seq_self (l : list Q) : map (fun i => nth i l 0) (seq 0 (length l)) = l.
Proof.
  induction l as [|a l IH]; simpl; [reflexivity|]. f_equal.
  rewrite <- seq_shift, map_map. exact IH.
Qed.

Lemma Qle_bool_Qred (a b : Q) : Qle_bool (Qred a) (Qred b) = Qle_bool a b.
Proof.
  destruct (Qle_bool a b) eqn:E.
  - apply Qle_bool_iff, Qred_le, Qle_bool_iff. exact E.
  - destruct (Qle_bool (Qred a) (Qred b)) eqn:E'; [|reflexivity].
    apply Qle_bool_iff, (proj1 (Qred_le a b)), (proj2 (Qle_bool_iff a b)) in E'. congruence.
Qed.

Lemma insert_by_Qred (a : Q) (l : list Q) :
  insert_by (fun q => q) (Qred a) (map Qred l) = map Qred (insert_by (fun q => q) a l).
Proof.
  induction l as [|b t IH]; simpl; [reflexivity|].
  rewrite Qle_bool_Qred. destruct (Qle_bool a b); simpl; [reflexivity|].
  rewrite IH. reflexivity.
Qed.

Lemma sort_by_Qred (l : list Q) :
  sort_by (fun q => q) (map Qred l) = map Qred (sort_by (fun q => q) l).
Proof. induction l as [|a t IH]; simpl; [reflexivity|]. rewrite IH, insert_by_Qred. reflexivity. Qed.

Lemma insert_by_sorted (a : Q) (l : list Q) :
  StronglySorted Qle l -> StronglySorted Qle (insert_by (fun q => q) a l).
Proof.
  induction l as [|b t IH]; intros H; simpl.
  - constructor; constructor.
  - inversion H as [|? ? Ht Hb]; subst. rewrite Forall_forall in Hb.
    destruct (Qle_bool a b) eqn:E.
    + apply Qle_bool_iff in E. constructor; [exact H|].
      constructor; [exact E|]. apply Forall_forall. intros y Hy.
      eapply Qle_trans; [exact E | apply Hb, Hy].
    + assert (Hn : ~ a <= b) by (intros C; apply Qle_bool_iff in C; congruence).
      constructor; [apply IH, Ht|]. apply Forall_forall. intros y Hy.
      apply (Permutation_in _ (insert_by_perm _ a t)) in Hy.
      destruct Hy as [<-|Hy].
      * apply Qlt_le_weak, Qnot_le_lt. exact Hn.
      * apply Hb, Hy.
Qed.

Lemma sort_by_sorted (l : list Q) : StronglySorted Qle (sort_by (fun q => q) l).
Proof. induction l as [|a t IH]; simpl; [constructor|]. apply insert_by_sorted, IH. Qed.

Lemma sorted_perm_eq (l1 : list Q) : forall l2,
  StronglySorted Qle l1 -> StronglySorted Qle l2 -> Permutation l1 l2 ->
  Forall (fun q => Qred q = q) l1 -> Forall (fun q => Qred q = q) l2 -> l1 = l2.
Proof.
  induction l1 as [|a t1 IH]; intros l2 H1 H2 P C1 C2.
  - symmetry. apply Permutation_nil, P.
  - destruct l2 as [|b t2]; [apply Permutation_sym, Permutation_nil in P; discriminate|].
    inversion H1 as [|? ? Ht1 Ha]; inversion H2 as [|? ? Ht2 Hb]; subst.
    rewrite Forall_forall in Ha, Hb.
    assert (Ia : In a (b :: t2)) by (apply (Permutation_in _ P); left; reflexivity).
    assert (Ib : In b (a :: t1)) by (apply (Permutation_in _ (Permutation_sym P)); left; reflexivity).
    assert (Hba : b <= a) by (destruct Ia as [E|Ia]; [rewrite E; apply Qle_refl | apply Hb, Ia]).
    assert (Hab : a <= b) by (destruct Ib as [E|Ib]; [rewrite E; apply Qle_refl | apply Ha, Ib]).
    inversion C1 as [|? ? Ca Ct1]; inversion C2 as [|? ? Cb Ct2]; subst.
    assert (E : a = b) by (rewrite <- Ca, <- Cb; apply Qred_complete, Qle_antisym; assumption).
    subst b. f_equal. apply IH; try assumption.
    apply Permutation_cons_inv with a. exact P.
Qed.

Lemma nth_map_Qred (l : list Q) (i : nat) : nth i (map Qred l) 0 = Qred (nth i l 0).
Proof. exact (map_nth Qred l 0 i). Qed.

Lemma np_median_Qred (l : list Q) (q : Q) :
  np_median l = F q -> exists q', np_median (map Qred l) = F q' /\ q == q'.
Proof.
  unfold np_median. cbv zeta. rewrite sort_by_Qred, length_map.
  destruct (Nat.eqb (length (sort_by (fun q => q) l)) 0); [discriminate|].
  destruct (Nat.odd (length (sort_by (fun q => q) l))); intros H; injection H as <-;
    eexists; split; try reflexivity; rewrite !nth_map_Qred, !Qred_correct; reflexivity.
Qed.

Lemma np_median_perm_Qred (l1 l2 : list Q) :
  Permutation l1 l2 -> np_median (map Qred l1) = np_median (map Qred l2).
Proof.
  intros P.
  assert (Hc : forall l, Forall (fun q => Qred q = q) (sort_by (fun q => q) (map Qred l))).
  { intros l. apply Forall_forall. intros y Hy.
    apply (Permutation_in _ (sort_by_perm _ _)), in_map_iff in Hy as [z [<- _]].
    apply Qred_complete, Qred_correct. }
  assert (Hs : sort_by (fun q => q) (map Qred l1) = sort_by (fun q => q) (map Qred l2)).
  { apply sorted_perm_eq; [apply sort_by_sorted | apply sort_by_sorted | | apply Hc | apply Hc].
    eapply perm_trans; [apply sort_by_perm|].
    eapply perm_trans; [apply Permutation_map, P|].
    apply Permutation_sym, sort_by_perm. }
  unfold np_median. rewrite Hs. reflexivity.
Qed.

Lemma np_median_nonempty (l : list Q) : l <> [] -> exists q, np_median l = F q.
Proof.
  intros Hl. unfold np_median. cbv zeta.
  rewrite (Permutation_length (sort_by_perm _ l)).
  destruct (Nat.eqb_spec (length l) 0) as [E|_].
  - apply length_zero_iff_nil in E. contradiction.
  - destruct (Nat.odd (length l)); eexists; reflexivity.
Qed.

(** With the median and [n_neighbors] equal to the window's size, every
    stored sample is a neighbour: the prediction is the median of all the
    window's targets, whatever the query and whatever the order in which
    the neighbours come back. *)
Theorem predict_one_median_full_window (s : state) (x : features) (w : window) :
  aggregation_method (model s) = "median" -> data_window (model s) = Some w ->
  n_neighbors (model s) = size w -> (1 <= size w)%nat ->
  exists q, fst (predict_one s x) = Ok (Some (F q))
  /\ exists q', np_median (targets_buffer w) = F q' /\ q == q'.
Proof.
  intros Ha Hw Hn H1.
  destruct (get_neighbors (model s) w (fst (dict2numpy (reg s) x))) as [dists idx] eqn:G.
  rewrite (predict_one_values s x w dists idx Hw ltac:(lia) G).
  assert (Hperm : Permutation idx (seq 0 (size w))).
  { unfold get_neighbors in G. inversion G as [[Hd Hi]]. clear G Hd.
    rewrite Hn, firstn_all2.
    - eapply perm_trans; [apply Permutation_map, sort_by_perm|].
      unfold size. rewrite map_fst_combine_seq. reflexivity.
    - rewrite (Permutation_length (sort_by_perm _ _)), length_combine, length_seq. unfold size. lia. }
  set (vals := map (fun i => nth i (targets_buffer w) 0) idx).
  assert (Hv : Permutation vals (targets_buffer w)).
  { unfold vals. eapply perm_trans; [apply Permutation_map, Hperm|].
    rewrite <- targets_buffer_length, map_nth_seq_self. reflexivity. }
  assert (Hne : forall l : list Q, length l = size w -> l <> []).
  { intros l E C. subst l. simpl in E. lia. }
  destruct (np_median_nonempty vals) as [q0 Hq0].
  { apply Hne. rewrite (Permutation_length Hv). apply targets_buffer_length. }
  destruct (np_median_nonempty (targets_buffer w)) as [q2 Hq2].
  { apply Hne, targets_buffer_length. }
  exists q0. split.
  - unfold aggregate. rewrite Ha, median_is_not_mean, String.eqb_refl. simpl. rewrite Hq0. reflexivity.
  - exists q2. split; [exact Hq2|].
    destruct (np_median_Qred vals q0 Hq0) as [q1 [H1' E1]].
    destruct (np_median_Qred _ q2 Hq2) as [q3 [H3 E3]].
    rewrite (np_median_perm_Qred _ _ Hv), H3 in H1'. injection H1' as <-.
    rewrite E1, E3. reflexivity.
Qed.

Lemma predict_one_median_full_window_witness :
  let s := mk_state (mk_knn 2 3 30 1 "median" (Some (mk_window 3 [([0], 10); ([4], 50)]))) ["f"] in
  (aggregation_method (model s) = "median"
   /\ data_window (model s) = Some (mk_window 3 [([0], 10); ([4], 50)])
   /\ n_neighbors (model s) = size (mk_window 3 [([0], 10); ([4], 50)])
   /\ le 1 (size (mk_window 3 [([0], 10); ([4], 50)])))
  /\ exists q, fst (predict_one s [("f", 7)]) = Ok (Some (F q))
     /\ exists q', np_median (targets_buffer (mk_window 3 [([0], 10); ([4], 50)])) = F q' /\ q == q'.
Proof.
  cbv zeta. split; [split; [reflexivity | split; [reflexivity | split; [reflexivity | unfold size; simpl; lia]]]|].
  apply predict_one_median_full_window; [reflexivity | reflexivity | reflexivity | unfold size; simpl; lia].
Defined.
